(** * Real-time notification fan-out: the connection registry and its dispatch

    A shallow embedding of
      - [services/notifications/websocket_manager.py] ([WebSocketClient],
        [Notification], [WebSocketManager]),
      - the receive loop and the notify route of [routes/websocket.py],
      - the older registry of [services/notifications/websocket.py]
        (module [Legacy]).

    Python objects live in a store ([heap]) and are named by their position
    in it, so that the [client] variable of a session and the entry of
    [active_connections] can alias the same object, or stop doing so.
    Coroutines are run to completion one after the other: every operation is
    one transition of the state, and the [asyncio.Lock] has no counterpart.
    The framework's socket is a handle (a number) into a [Transport]; its
    handshake ([accept]) is taken to succeed. *)

From stdpp Require Import gmap strings list fin_maps.

Open Scope string_scope.
Open Scope list_scope.

Set Warnings "-clear-no-such-hyp".

(** ** Python's insertion-ordered [dict] with string keys *)

Module PyDict.

Section Dict.
Context {V : Type}.

(** [d.get(k)] *)
Fixpoint get (d : list (string * V)) (k : string) : option V :=
  match d with
  | [] => None
  | (k', v) :: d' => if decide (k' = k) then Some v else get d' k
  end.

(** [d[k] = v]: an existing key keeps its position, a new key goes last. *)
Fixpoint set (d : list (string * V)) (k : string) (v : V) : list (string * V) :=
  match d with
  | [] => [(k, v)]
  | (k', v') :: d' =>
      if decide (k' = k) then (k, v) :: d' else (k', v') :: set d' k v
  end.

(** [d.pop(k, None)], the popped value dropped. *)
Fixpoint pop (d : list (string * V)) (k : string) : list (string * V) :=
  match d with
  | [] => []
  | (k', v') :: d' =>
      if decide (k' = k) then pop d' k else (k', v') :: pop d' k
  end.

(** [list(d.keys())] *)
Definition keys (d : list (string * V)) : list string := d.*1.

End Dict.

End PyDict.

(** ** Enumerations *)

Inductive ConnectionType := USER | SCAN | DASHBOARD | ADMIN.

Inductive NotificationType :=
| CONNECTED | DISCONNECTED | ERROR | PING | PONG
| SCAN_STARTED | SCAN_PROGRESS | SCAN_COMPLETED | SCAN_FAILED
| THREAT_DETECTED | THREAT_MITIGATED
| USER_JOINED | USER_LEFT
| SYSTEM_ALERT | MAINTENANCE_NOTICE.

(** The value of each member ([class NotificationType(str, Enum)]). *)
Definition NotificationType_value (t : NotificationType) : string :=
  match t with
  | CONNECTED => "connected" | DISCONNECTED => "disconnected"
  | ERROR => "error" | PING => "ping" | PONG => "pong"
  | SCAN_STARTED => "scan_started" | SCAN_PROGRESS => "scan_progress"
  | SCAN_COMPLETED => "scan_completed" | SCAN_FAILED => "scan_failed"
  | THREAT_DETECTED => "threat_detected" | THREAT_MITIGATED => "threat_mitigated"
  | USER_JOINED => "user_joined" | USER_LEFT => "user_left"
  | SYSTEM_ALERT => "system_alert" | MAINTENANCE_NOTICE => "maintenance_notice"
  end.

Definition NotificationType_members : list NotificationType :=
  [CONNECTED; DISCONNECTED; ERROR; PING; PONG;
   SCAN_STARTED; SCAN_PROGRESS; SCAN_COMPLETED; SCAN_FAILED;
   THREAT_DETECTED; THREAT_MITIGATED; USER_JOINED; USER_LEFT;
   SYSTEM_ALERT; MAINTENANCE_NOTICE].

(** [NotificationType(v)]: the member whose value is [v]; [None] stands for
    the [ValueError] of a string that is no member. *)
Definition NotificationType_of_value (v : string) : option NotificationType :=
  List.find (fun t => bool_decide (NotificationType_value t = v))
            NotificationType_members.

(** ** Notifications

    [timestamp] and [message_id] are drawn from the clock and from [uuid4]
    when the object is built; they play no role in routing and are left out
    of the wire message. The values of [data] are the strings and lists of
    strings the code puts there. *)

Inductive Value := Str (s : string) | Strs (l : list string).

Record Notification := {
  type : NotificationType;
  data : list (string * Value)
}.

(** [Notification(type=..., data=...)] with the type given as a plain string,
    as the routes do: the field is declared [type: NotificationType], so a
    string that is no member of the enumeration is refused when the model is
    validated ([None]). *)
Definition Notification_of (ty : string) (d : list (string * Value))
  : option Notification :=
  match NotificationType_of_value ty with
  | Some t => Some {| type := t; data := d |}
  | None => None
  end.

(** ** The transport

    What the framework's socket does is outside the repository: a socket is a
    handle, a write on a handle of [broken] raises, any other write appends
    the frame to [outbox]. [closed] records the [close] calls. *)

Record Transport := {
  broken : gset nat;
  outbox : list (nat * Notification);
  closed : list nat
}.

(** [websocket.send_json(data)]; [None] is a raised exception. *)
Definition ws_send_json (t : Transport) (ws : nat) (n : Notification)
  : option Transport :=
  if decide (ws ∈ broken t) then None
  else Some {| broken := broken t;
               outbox := outbox t ++ [(ws, n)];
               closed := closed t |}.

(** [websocket.close(code, reason)] under [WebSocketClient.close], whose
    [try]/[except] swallows any error. *)
Definition ws_close (t : Transport) (ws : nat) : Transport :=
  {| broken := broken t; outbox := outbox t; closed := closed t ++ [ws] |}.

(** ** Clients *)

Record WebSocketClient := {
  websocket : nat;
  client_id : string;
  user_id : option string;
  connection_type : option ConnectionType;
  scan_id : option string;
  groups : gset string
}.

Definition with_groups (c : WebSocketClient) (gs : gset string) : WebSocketClient :=
  {| websocket := websocket c; client_id := client_id c; user_id := user_id c;
     connection_type := connection_type c; scan_id := scan_id c; groups := gs |}.

(** [WebSocketClient.send_json]: the write is tried, an exception is logged
    and turned into [False]. *)
Definition send_json (t : Transport) (c : WebSocketClient) (n : Notification)
  : Transport * bool :=
  match ws_send_json t (websocket c) n with
  | Some t' => (t', true)
  | None => (t, false)
  end.

(** Truth value of an [Optional[str]] in a condition ([if user_id:]): [None]
    and the empty string are false. *)
Definition truthy (o : option string) : option string :=
  match o with
  | Some s => if decide (s = "") then None else Some s
  | None => None
  end.

(** ** The registry *)

Record WebSocketManager := {
  active_connections : list (string * nat);
  user_connections : gmap string (gset string);
  scan_connections : gmap string (gset string);
  group_connections : gmap string (gset string)
}.

(** [WebSocketManager.__init__] *)
Definition WebSocketManager_init : WebSocketManager :=
  {| active_connections := [];
     user_connections := ∅; scan_connections := ∅; group_connections := ∅ |}.

Record World := {
  heap : list WebSocketClient;
  manager : WebSocketManager;
  net : Transport
}.

Definition fresh_world (t : Transport) : World :=
  {| heap := []; manager := WebSocketManager_init; net := t |}.

Definition quiet : Transport := {| broken := ∅; outbox := []; closed := [] |}.

(** [index.get(k, set())] *)
Definition members (index : gmap string (gset string)) (k : string) : gset string :=
  default ∅ (index !! k).

(** [if k not in index: index[k] = set()] then [index[k].add(v)] *)
Definition index_add (index : gmap string (gset string)) (k v : string)
  : gmap string (gset string) :=
  <[k := {[v]} ∪ members index k]> index.

(** [if k in index:] [index[k].discard(v)] and
    [if not index[k]: del index[k]] *)
Definition index_discard (index : gmap string (gset string)) (k v : string)
  : gmap string (gset string) :=
  match index !! k with
  | None => index
  | Some s =>
      let s' := s ∖ {[v]} in
      if decide (s' = ∅) then delete k index else <[k := s']> index
  end.

(** The same two steps guarded by [if key and ...]. *)
Definition index_add_opt (index : gmap string (gset string)) (key : option string)
    (v : string) : gmap string (gset string) :=
  match truthy key with
  | Some k => index_add index k v
  | None => index
  end.

Definition index_discard_opt (index : gmap string (gset string))
    (key : option string) (v : string) : gmap string (gset string) :=
  match truthy key with
  | Some k => index_discard index k v
  | None => index
  end.

Definition with_net (w : World) (t : Transport) : World :=
  {| heap := heap w; manager := manager w; net := t |}.

(** ** [WebSocketManager]: sending *)

(** [send_to_client]: an id that is not registered gives [False]. *)
Definition send_to_client (w : World) (cid : string) (notification : Notification)
  : World * bool :=
  match PyDict.get (active_connections (manager w)) cid with
  | None => (w, false)
  | Some r =>
      match heap w !! r with
      | None => (w, false)
      | Some client =>
          let '(t, result) := send_json (net w) client notification in
          (with_net w t, result)
      end
  end.

(** The loop shared by [send_to_user], [send_to_scan] and [send_to_group]:
    [results.append(await self.send_to_client(client_id, notification))]. *)
Definition send_to_each (w : World) (client_ids : list string)
    (notification : Notification) : World * list bool :=
  foldl (fun (acc : World * list bool) cid =>
           let '(w', result) := send_to_client acc.1 cid notification in
           (w', acc.2 ++ [result]))
        (w, []) client_ids.

(** [list(self.user_connections.get(user_id, set()))]: the order in which
    Python walks a set is not fixed by the language; [elements] is the order
    of the model. *)
Definition send_to_user (w : World) (uid : string) (notification : Notification)
  : World * list bool :=
  send_to_each w (elements (members (user_connections (manager w)) uid)) notification.

Definition send_to_scan (w : World) (sid : string) (notification : Notification)
  : World * list bool :=
  send_to_each w (elements (members (scan_connections (manager w)) sid)) notification.

Definition send_to_group (w : World) (group : string) (notification : Notification)
  : World * list bool :=
  send_to_each w (elements (members (group_connections (manager w)) group)) notification.

(** [client.user_id and client.user_id in exclude_user_ids] *)
Definition user_excluded (c : WebSocketClient) (exclude_user_ids : gset string) : bool :=
  match truthy (user_id c) with
  | Some u => bool_decide (u ∈ exclude_user_ids)
  | None => false
  end.

(** One turn of the loop of [broadcast] over the copied key list. *)
Definition broadcast_step (hp : list WebSocketClient) (m : WebSocketManager)
    (notification : Notification) (exclude_client_ids exclude_user_ids : gset string)
    (acc : Transport * gmap string bool) (cid : string)
  : Transport * gmap string bool :=
  match PyDict.get (active_connections m) cid with
  | None => acc
  | Some r =>
      match hp !! r with
      | None => acc
      | Some client =>
          if decide (cid ∈ exclude_client_ids) then acc
          else if user_excluded client exclude_user_ids then acc
          else
            let '(t, result) := send_json acc.1 client notification in
            (t, <[cid := result]> acc.2)
      end
  end.

(** [broadcast]: the result is the dictionary [results], client id to the
    outcome of its send. *)
Definition broadcast (w : World) (notification : Notification)
    (exclude_client_ids exclude_user_ids : gset string)
  : World * gmap string bool :=
  let '(t, results) :=
    foldl (broadcast_step (heap w) (manager w) notification
                          exclude_client_ids exclude_user_ids)
          (net w, ∅) (PyDict.keys (active_connections (manager w))) in
  (with_net w t, results).

(** ** [WebSocketManager]: registration *)

(** [for group in client.groups:] add the client to the entry of the group. *)
Definition index_add_all (index : gmap string (gset string)) (gs : gset string)
    (cid : string) : gmap string (gset string) :=
  foldl (fun idx g => index_add idx g cid) index (elements gs).

Definition index_discard_all (index : gmap string (gset string)) (gs : gset string)
    (cid : string) : gmap string (gset string) :=
  foldl (fun idx g => index_discard idx g cid) index (elements gs).

(** The block of [connect] under [async with self.lock]. *)
Definition register (m : WebSocketManager) (r : nat) (client : WebSocketClient)
  : WebSocketManager :=
  let cid := client_id client in
  {| active_connections := PyDict.set (active_connections m) cid r;
     user_connections := index_add_opt (user_connections m) (user_id client) cid;
     scan_connections := index_add_opt (scan_connections m) (scan_id client) cid;
     group_connections := index_add_all (group_connections m) (groups client) cid |}.

(** [connect]: a new client object, its registration, the [connected] frame
    to the client, and [user_joined] to everybody else when a user id was
    given. The client is returned (its place in the store). *)
Definition connect (w : World) (ws : nat) (cid : string) (uid : option string)
    (ctype : option ConnectionType) (sid : option string) (gs : list string)
  : World * nat :=
  let client := {| websocket := ws; client_id := cid; user_id := uid;
                   connection_type := ctype; scan_id := sid;
                   groups := list_to_set gs |} in
  let r := length (heap w) in
  let w1 := {| heap := heap w ++ [client];
               manager := register (manager w) r client;
               net := net w |} in
  let w2 := with_net w1
              (send_json (net w1) client
                 {| type := CONNECTED; data := [("client_id", Str cid)] |}).1 in
  match truthy uid with
  | Some u =>
      ((broadcast w2 {| type := USER_JOINED;
                        data := [("user_id", Str u); ("client_id", Str cid)] |}
                  {[cid]} ∅).1, r)
  | None => (w2, r)
  end.

(** The block of [disconnect] under [async with self.lock]. *)
Definition unregister (m : WebSocketManager) (cid : string) (client : WebSocketClient)
  : WebSocketManager :=
  {| active_connections := PyDict.pop (active_connections m) cid;
     user_connections := index_discard_opt (user_connections m) (user_id client) cid;
     scan_connections := index_discard_opt (scan_connections m) (scan_id client) cid;
     group_connections := index_discard_all (group_connections m) (groups client) cid |}.

(** [disconnect]: nothing happens for an id that is not registered; else the
    socket is closed, the entries are removed, and [user_left] goes to those
    that remain when the client had a user id. *)
Definition disconnect (w : World) (cid : string) : World :=
  match PyDict.get (active_connections (manager w)) cid with
  | None => w
  | Some r =>
      match heap w !! r with
      | None => w
      | Some client =>
          let w1 := {| heap := heap w;
                       manager := unregister (manager w) cid client;
                       net := ws_close (net w) (websocket client) |} in
          match truthy (user_id client) with
          | Some u =>
              (broadcast w1 {| type := USER_LEFT;
                               data := [("user_id", Str u); ("client_id", Str cid)] |}
                         ∅ ∅).1
          | None => w1
          end
      end
  end.

(** ** [routes/websocket.py]: the receive loop of [websocket_endpoint] *)

(** The two local variables of a running [websocket_endpoint]: the id it
    connected under and the client object [authenticate_connection] gave
    back. *)
Record Session := {
  session_client_id : string;
  session_client : nat
}.

(** [if group not in client.groups:] add it to the client and to the index. *)
Definition subscribe_group (cid : string)
    (acc : gset string * gmap string (gset string)) (group : string)
  : gset string * gmap string (gset string) :=
  if decide (group ∈ acc.1) then acc
  else ({[group]} ∪ acc.1, index_add acc.2 group cid).

(** [if group in client.groups:] remove it from the client and from the
    index. *)
Definition unsubscribe_group (cid : string)
    (acc : gset string * gmap string (gset string)) (group : string)
  : gset string * gmap string (gset string) :=
  if decide (group ∈ acc.1) then (acc.1 ∖ {[group]}, index_discard acc.2 group cid)
  else acc.

(** The [for group in groups:] loop of either branch, on the client object of
    the session and on [websocket_manager.group_connections]. Group labels
    are strings. *)
Definition update_groups
    (turn : string -> gset string * gmap string (gset string) -> string ->
            gset string * gmap string (gset string))
    (w : World) (s : Session) (gs : list string) : World :=
  match heap w !! session_client s with
  | None => w
  | Some client =>
      let '(held, index) :=
        foldl (turn (session_client_id s))
              (groups client, group_connections (manager w)) gs in
      {| heap := <[session_client s := with_groups client held]> (heap w);
         manager := {| active_connections := active_connections (manager w);
                       user_connections := user_connections (manager w);
                       scan_connections := scan_connections (manager w);
                       group_connections := index |};
         net := net w |}
  end.

Definition subscribe : World -> Session -> list string -> World :=
  update_groups subscribe_group.

Definition unsubscribe : World -> Session -> list string -> World :=
  update_groups unsubscribe_group.

(** What [json.loads(message)] and the dispatch on ["type"] make of a text
    frame. Frames that decode to something else than an object, or whose
    ["data"] is no object, are not covered. *)
Inductive Frame :=
| FrameGarbled                                (* [JSONDecodeError] *)
| FramePing
| FrameSubscribe (gs : option (list string))  (* [None]: ["groups"] is no list *)
| FrameUnsubscribe (gs : option (list string))
| FrameEcho (payload : Value)
| FrameOther.

(** [send_to_client] with a notification built from a type given as a
    string; the flag tells that building it raised. *)
Definition reply (w : World) (cid : string) (ty : string)
    (d : list (string * Value)) : World * bool :=
  match Notification_of ty d with
  | Some n => ((send_to_client w cid n).1, false)
  | None => (w, true)
  end.

Definition held_groups (w : World) (s : Session) : list string :=
  match heap w !! session_client s with
  | Some client => elements (groups client)
  | None => []
  end.

(** The two fixed answers of the receive loops. *)
Definition invalid_json_error : Notification :=
  {| type := ERROR; data := [("message", Str "Invalid JSON format")] |}.

Definition pong (now : string) : Notification :=
  {| type := PONG; data := [("timestamp", Str now)] |}.

(** The inner [try] of the loop up to its [except json.JSONDecodeError]; the
    flag tells that another exception left it. *)
Definition websocket_endpoint_body (DEBUG : bool) (now : string) (w : World)
    (s : Session) (f : Frame) : World * bool :=
  let cid := session_client_id s in
  match f with
  | FrameGarbled => ((send_to_client w cid invalid_json_error).1, false)
  | FramePing => ((send_to_client w cid (pong now)).1, false)
  | FrameSubscribe (Some gs) =>
      let w' := subscribe w s gs in
      reply w' cid "subscription_updated" [("groups", Strs (held_groups w' s))]
  | FrameUnsubscribe (Some gs) =>
      let w' := unsubscribe w s gs in
      reply w' cid "subscription_updated" [("groups", Strs (held_groups w' s))]
  | FrameSubscribe None | FrameUnsubscribe None => (w, false)
  | FrameEcho payload =>
      if DEBUG then reply w cid "echo" [("message", payload)] else (w, false)
  | FrameOther => (w, false)
  end.

(** One turn of [while True:] for a frame that arrived: the body, and the
    [except Exception] that answers any other error. *)
Definition websocket_endpoint_turn (DEBUG : bool) (now : string) (w : World)
    (s : Session) (f : Frame) : World :=
  let '(w', raised) := websocket_endpoint_body DEBUG now w s f in
  if raised then
    (send_to_client w' (session_client_id s)
       {| type := ERROR; data := [("message", Str "Internal server error")] |}).1
  else w'.

(** The [finally] of [websocket_endpoint]. *)
Definition websocket_endpoint_finally (w : World) (s : Session) : World :=
  disconnect w (session_client_id s).

(** ** [WebSocketManager.handle_client]: its own receive loop

    One turn for a frame that arrived: only [ping] is answered, straight on
    the client object; undecodable text is logged. *)
Definition handle_client_turn (now : string) (w : World) (s : Session) (f : Frame)
  : World :=
  match f with
  | FramePing =>
      match heap w !! session_client s with
      | Some client =>
          with_net w (send_json (net w) client (pong now)).1
      | None => w
      end
  | _ => w
  end.

(** ** [routes/websocket.py]: [send_notification]

    [results["sent_to"]] is a dictionary for a broadcast and for a single
    client, and the list the manager returns for the other targets. *)
Inductive SentTo :=
| SentDict (m : gmap string bool)
| SentList (l : list bool).

(** The branch on [target_type] and [target_id]; the result is
    [results["sent_to"]] and [results["count"]], or [None] when the last
    branch raises. The notification is taken as already built. *)
Definition send_notification (w : World) (notification : Notification)
    (target_type : string) (target_id : option string)
  : World * option (SentTo * nat) :=
  if decide (target_type = "broadcast") then
    let '(w', m) := broadcast w notification ∅ ∅ in
    (w', Some (SentDict m, size m))
  else
    match truthy target_id with
    | None => (w, None)
    | Some id =>
        if decide (target_type = "user") then
          let '(w', l) := send_to_user w id notification in
          (w', Some (SentList l, length l))
        else if decide (target_type = "group") then
          let '(w', l) := send_to_group w id notification in
          (w', Some (SentList l, length l))
        else if decide (target_type = "client") then
          let '(w', success) := send_to_client w id notification in
          (w', Some (SentDict {[id := success]}, if success then 1 else 0))
        else if decide (target_type = "scan") then
          let '(w', l) := send_to_scan w id notification in
          (w', Some (SentList l, length l))
        else (w, None)
    end.

(** ** [services/notifications/websocket.py]: the older registry *)

Module Legacy.

(** [active_connections] maps a client id to its socket; [channels] maps a
    channel to the list of its subscribers. *)
Record WebSocketManager := {
  active_connections : list (string * nat);
  channels : gmap string (list string)
}.

Record World := {
  manager : WebSocketManager;
  net : Transport
}.

(** [clients.remove(x)]: the first occurrence goes. *)
Fixpoint list_remove (x : string) (l : list string) : list string :=
  match l with
  | [] => []
  | y :: l' => if decide (y = x) then l' else y :: list_remove x l'
  end.

Definition connect (w : World) (ws : nat) (cid : string) : World :=
  {| manager := {| active_connections :=
                     PyDict.set (active_connections (manager w)) cid ws;
                   channels := channels (manager w) |};
     net := net w |}.

(** [disconnect]: for a registered id, the entry goes and the id is removed
    from every channel that lists it. *)
Definition disconnect (w : World) (cid : string) : World :=
  match PyDict.get (active_connections (manager w)) cid with
  | None => w
  | Some _ =>
      {| manager :=
           {| active_connections := PyDict.pop (active_connections (manager w)) cid;
              channels :=
                (fun clients =>
                   if decide (cid ∈ clients) then list_remove cid clients
                   else clients) <$> channels (manager w) |};
         net := net w |}
  end.

Definition subscribe (w : World) (cid channel : string) : World :=
  let clients := default [] (channels (manager w) !! channel) in
  {| manager :=
       {| active_connections := active_connections (manager w);
          channels :=
            <[channel := if decide (cid ∈ clients) then clients
                         else clients ++ [cid]]> (channels (manager w)) |};
     net := net w |}.

(** [send_message]: nothing is returned; a write that raises makes the
    manager disconnect the client. *)
Definition send_message (w : World) (cid : string) (message : Notification)
  : World :=
  match PyDict.get (active_connections (manager w)) cid with
  | None => w
  | Some ws =>
      match ws_send_json (net w) ws message with
      | Some t => {| manager := manager w; net := t |}
      | None => disconnect w cid
      end
  end.

End Legacy.

(** ** Sequences of registry operations *)

Inductive Op :=
| OpConnect (ws : nat) (cid : string) (uid : option string)
            (ctype : option ConnectionType) (sid : option string)
            (gs : list string)
| OpDisconnect (cid : string)
| OpSubscribe (s : Session) (gs : list string)
| OpUnsubscribe (s : Session) (gs : list string).

Definition step (w : World) (o : Op) : World :=
  match o with
  | OpConnect ws cid uid ctype sid gs => (connect w ws cid uid ctype sid gs).1
  | OpDisconnect cid => disconnect w cid
  | OpSubscribe s gs => subscribe w s gs
  | OpUnsubscribe s gs => unsubscribe w s gs
  end.

Definition run (w : World) (ops : list Op) : World := foldl step w ops.

(** An operation is orderly in a state when a [connect] brings an id that is
    not registered at that moment, and a group update comes from the session
    of the client registered under its id. *)
Definition orderly_op (w : World) (o : Op) : bool :=
  match o with
  | OpConnect _ cid _ _ _ _ =>
      bool_decide (PyDict.get (active_connections (manager w)) cid = None)
  | OpDisconnect _ => true
  | OpSubscribe s _ | OpUnsubscribe s _ =>
      bool_decide (PyDict.get (active_connections (manager w)) (session_client_id s)
                   = Some (session_client s))
  end.

Fixpoint orderly (w : World) (ops : list Op) : bool :=
  match ops with
  | [] => true
  | o :: ops' => orderly_op w o && orderly (step w o) ops'
  end.

(** ** The properties of a registry state *)

(** [c] is the client object registered under [cid]. *)
Definition registered (w : World) (cid : string) (c : WebSocketClient) : Prop :=
  ∃ r, PyDict.get (active_connections (manager w)) cid = Some r ∧
       heap w !! r = Some c.

(** [c] is a value of the primary map, under whatever key. *)
Definition active_value (w : World) (c : WebSocketClient) : Prop :=
  ∃ key r, PyDict.get (active_connections (manager w)) key = Some r ∧
           heap w !! r = Some c.

(** An id is listed under a group exactly when it is the id of a value of
    the primary map that holds the group. *)
Definition group_index_exact (w : World) : Prop :=
  ∀ cid g,
    cid ∈ members (group_connections (manager w)) g ↔
    ∃ c, active_value w c ∧ client_id c = cid ∧ g ∈ groups c.

(** An id listed under a user (a scan) is the id of a value of the primary
    map with that user id (scan id). *)
Definition user_index_sound (w : World) : Prop :=
  ∀ cid u,
    cid ∈ members (user_connections (manager w)) u →
    ∃ c, active_value w c ∧ client_id c = cid ∧ user_id c = Some u.

Definition scan_index_sound (w : World) : Prop :=
  ∀ cid s,
    cid ∈ members (scan_connections (manager w)) s →
    ∃ c, active_value w c ∧ client_id c = cid ∧ scan_id c = Some s.

Definition registry_consistent (w : World) : Prop :=
  group_index_exact w ∧ user_index_sound w ∧ scan_index_sound w.

(** The same for a primary map keyed by client id: an id is listed under a
    group exactly when the client registered under it holds the group. *)
Definition group_index_keyed (w : World) : Prop :=
  ∀ cid g,
    cid ∈ members (group_connections (manager w)) g ↔
    ∃ c, registered w cid c ∧ client_id c = cid ∧ g ∈ groups c.

(** No key of a secondary index holds the empty set. *)
Definition no_empty_entry (index : gmap string (gset string)) : Prop :=
  ∀ k s, index !! k = Some s → s ≠ ∅.

Definition no_empty_entries (m : WebSocketManager) : Prop :=
  no_empty_entry (user_connections m) ∧
  no_empty_entry (scan_connections m) ∧
  no_empty_entry (group_connections m).

(** Every entry of the primary map names an object of the store: references
    are only made by [connect], which stores the object first. *)
Definition refs_bound (w : World) : Prop :=
  ∀ cid r, PyDict.get (active_connections (manager w)) cid = Some r →
           is_Some (heap w !! r).

(** The client a broadcast with the given exclusions writes to under [cid],
    if any. *)
Definition broadcast_target (w : World) (exclude_client_ids exclude_user_ids : gset string)
    (cid : string) : option WebSocketClient :=
  match PyDict.get (active_connections (manager w)) cid with
  | None => None
  | Some r =>
      match heap w !! r with
      | None => None
      | Some client =>
          if decide (cid ∈ exclude_client_ids) then None
          else if user_excluded client exclude_user_ids then None
          else Some client
      end
  end.

(** The outcome of a write to the client: its socket is not broken. *)
Definition writable (t : Transport) (c : WebSocketClient) : bool :=
  bool_decide (websocket c ∉ broken t).

(** What the loop of [broadcast] has done after walking the ids [l]. *)
Record walked (w : World) (n : Notification) (e1 e2 : gset string)
    (t0 : Transport) (res0 : gmap string bool) (l : list string)
    (acc : Transport * gmap string bool) : Prop := {
  walked_broken : broken acc.1 = broken t0;
  walked_closed : closed acc.1 = closed t0;
  walked_result : ∀ cid,
    acc.2 !! cid =
    match broadcast_target w e1 e2 cid with
    | Some c => if decide (cid ∈ l) then Some (writable t0 c) else res0 !! cid
    | None => res0 !! cid
    end;
  walked_outbox : ∀ x,
    x ∈ outbox acc.1 ↔
    x ∈ outbox t0 ∨
    ∃ cid c, cid ∈ l ∧ broadcast_target w e1 e2 cid = Some c ∧
             writable t0 c = true ∧ x = (websocket c, n)
}.

(** Every entry of the primary map is filed under the id of its client. *)
Definition keyed_by_id (w : World) : Prop :=
  ∀ cid r, PyDict.get (active_connections (manager w)) cid = Some r →
           ∃ c, heap w !! r = Some c ∧ client_id c = cid.

(** The state of a registry whose ids were never registered twice at once:
    the primary map is keyed by client id, the group index is exact, and an
    id filed under a user or a scan belongs to a registered client that
    carries that (non-empty) user or scan id. *)
Record coherent (w : World) : Prop := {
  coherent_keyed : keyed_by_id w;
  coherent_group : group_index_keyed w;
  coherent_user : ∀ cid u,
    cid ∈ members (user_connections (manager w)) u →
    ∃ c, registered w cid c ∧ truthy (user_id c) = Some u;
  coherent_scan : ∀ cid s,
    cid ∈ members (scan_connections (manager w)) s →
    ∃ c, registered w cid c ∧ truthy (scan_id c) = Some s
}.

(** The client of the session and the group index agree on every group. *)
Definition groups_agree (w : World) (s : Session) : Prop :=
  ∀ g, session_client_id s ∈ members (group_connections (manager w)) g ↔
       ∃ c, heap w !! session_client s = Some c ∧ g ∈ groups c.

(** Whether a send to the id succeeds in the state: the id is registered and
    the socket of its client is not broken. *)
Definition delivery (w : World) (cid : string) : bool :=
  match PyDict.get (active_connections (manager w)) cid with
  | None => false
  | Some r =>
      match heap w !! r with
      | None => false
      | Some client => writable (net w) client
      end
  end.

(** ** Sample states *)

Definition alert : Notification :=
  {| type := SYSTEM_ALERT; data := [("message", Str "maintenance at noon")] |}.

(** Three anonymous clients [A], [B], [C] in the group [public], as
    [websocket_endpoint] connects them; the socket of [B] is broken. *)
Definition three_clients : list Op :=
  [OpConnect 0 "A" None (Some USER) None ["public"];
   OpConnect 1 "B" None (Some USER) None ["public"];
   OpConnect 2 "C" None (Some USER) None ["public"]].

Definition lossy : Transport := {| broken := {[1]}; outbox := []; closed := [] |}.

Definition abc_world : World := run (fresh_world lossy) three_clients.

Definition public_client (ws : nat) (cid : string) : WebSocketClient :=
  {| websocket := ws; client_id := cid; user_id := None;
     connection_type := Some USER; scan_id := None; groups := {["public"]} |}.

(** The same id connected twice, the second time while the first client is
    still registered. *)
Definition connected_twice : list Op :=
  [OpConnect 0 "a" (Some "u1") (Some USER) None ["g1"];
   OpConnect 1 "a" (Some "u2") (Some USER) None ["g2"]].

(** Two clients come and go; the second joins and leaves a group. *)
Definition orderly_day : list Op :=
  [OpConnect 0 "a" (Some "u1") (Some USER) None ["public"];
   OpConnect 1 "b" None (Some SCAN) (Some "scan-7") ["public"];
   OpSubscribe {| session_client_id := "b"; session_client := 1 |} ["alerts"; "alerts"];
   OpUnsubscribe {| session_client_id := "b"; session_client := 1 |} ["public"];
   OpDisconnect "a";
   OpConnect 2 "a" (Some "u3") (Some USER) None ["public"]].

(** One client registered under ["a"]. *)
Definition once_connected : World :=
  run (fresh_world quiet) [OpConnect 0 "a" (Some "u1") (Some USER) None ["g1"]].



Definition session_B : Session :=
  {| session_client_id := "B"; session_client := 1 |}.

Definition session_C : Session :=
  {| session_client_id := "C"; session_client := 2 |}.

(** A state of the older registry: ["x"] is connected on a broken socket and
    subscribed to two channels. *)
Definition legacy_sample : Legacy.World :=
  Legacy.subscribe
    (Legacy.subscribe
       (Legacy.subscribe
          (Legacy.connect
             (Legacy.connect
                {| Legacy.manager := {| Legacy.active_connections := [];
                                        Legacy.channels := ∅ |};
                   Legacy.net := lossy |}
                1 "x")
             2 "y")
          "x" "threats")
       "y" "threats")
    "x" "scan_7".

(** ** [WebSocketManager.authenticate_connection]

    [verify_jwt_token] decodes and checks the signature with the JWT library;
    here it is a function from the token to the subject of its payload, or
    nothing when it raises. [fresh_id] is the value of [str(uuid.uuid4())]. *)

Definition authenticate_connection (verify_jwt_token : string -> option string)
    (w : World) (ws : nat) (token : option string) (cid : option string)
    (fresh_id : string) (ctype : option ConnectionType) (sid : option string)
    (gs : list string) : World * option nat :=
  let cid := match truthy cid with Some c => c | None => fresh_id end in
  match truthy token with
  | None =>
      let '(w', client) := connect w ws cid None ctype sid gs in
      (w', Some client)
  | Some tok =>
      match verify_jwt_token tok with
      | Some sub =>
          let '(w', client) := connect w ws cid (Some sub) ctype sid gs in
          (w', Some client)
      | None =>
          (* [websocket.close(1008)], then [raise WebSocketDisconnect()] *)
          (with_net w (ws_close (net w) ws), None)
      end
  end.

(** ** [routes/websocket.py]: a whole run of [websocket_endpoint]

    The frames are those received before the socket disconnects, each with
    the clock reading of its turn. Every client is put in the group
    [public]; the [finally] disconnects the id of the run whether or not the
    run registered it. *)
Definition websocket_endpoint (verify_jwt_token : string -> option string)
    (DEBUG : bool) (w : World) (ws : nat) (token : option string)
    (cid : option string) (fresh_id : string) (ctype : option ConnectionType)
    (sid : option string) (frames : list (string * Frame)) : World :=
  let cid := match truthy cid with Some c => c | None => fresh_id end in
  let '(w1, client) :=
    authenticate_connection verify_jwt_token w ws token (Some cid) fresh_id
                            ctype sid ["public"] in
  let w2 :=
    match client with
    | Some r =>
        foldl (fun w' (tf : string * Frame) =>
                 websocket_endpoint_turn DEBUG tf.1 w'
                   {| session_client_id := cid; session_client := r |} tf.2)
              w1 frames
    | None => w1
    end in
  disconnect w2 cid.

(** ** [WebSocketManager.handle_client]: a whole run *)
Definition handle_client (w : World) (ws : nat) (cid : string)
    (uid : option string) (ctype : option ConnectionType) (sid : option string)
    (gs : list string) (frames : list (string * Frame)) : World :=
  let '(w1, r) := connect w ws cid uid ctype sid gs in
  let w2 :=
    foldl (fun w' (tf : string * Frame) =>
             handle_client_turn tf.1 w'
               {| session_client_id := cid; session_client := r |} tf.2)
          w1 frames in
  disconnect w2 cid.

(** ** [routes/websocket.py]: [get_connections] *)

#[global] Instance ConnectionType_eq_dec : EqDecision ConnectionType.
Proof. solve_decision. Defined.

(** One dictionary of the answer; [connected_at] is read with [getattr] from
    a class that has no such field. *)
Record ConnectionInfo := {
  info_client_id : string;
  info_user_id : option string;
  info_connection_type : option ConnectionType;
  info_scan_id : option string;
  info_groups : list string;
  info_connected_at : option string
}.

(** The three [continue] tests: a filter that is given (and, for a string,
    not empty) must be equal to the field of the client. *)
Definition passes_filters (uid : option string) (ctype : option ConnectionType)
    (sid : option string) (client : WebSocketClient) : bool :=
  match truthy uid with
  | Some u => bool_decide (user_id client = Some u)
  | None => true
  end &&
  match ctype with
  | Some t => bool_decide (connection_type client = Some t)
  | None => true
  end &&
  match truthy sid with
  | Some s => bool_decide (scan_id client = Some s)
  | None => true
  end.

Definition connection_info (cid : string) (client : WebSocketClient) : ConnectionInfo :=
  {| info_client_id := cid;
     info_user_id := user_id client;
     info_connection_type := connection_type client;
     info_scan_id := scan_id client;
     info_groups := elements (groups client);
     info_connected_at := None |}.

(** The loop over [active_connections.items()]; the answer is its [count]
    and its [connections]. *)
Definition get_connections (w : World) (uid : option string)
    (ctype : option ConnectionType) (sid : option string)
  : nat * list ConnectionInfo :=
  let connections :=
    omap (fun (entry : string * nat) =>
            match heap w !! entry.2 with
            | Some client =>
                if passes_filters uid ctype sid client
                then Some (connection_info entry.1 client)
                else None
            | None => None
            end)
         (active_connections (manager w)) in
  (length connections, connections).

(** ** [routes/websocket.py]: [send_notification] from the posted message

    [WebSocketMessage] keeps any string as its type; the route then builds a
    [Notification] from it, and an exception anywhere in the body ends the
    request with an error ([None]). *)
Definition send_notification_request (w : World) (message_type : string)
    (message_data : list (string * Value)) (target_type : string)
    (target_id : option string) : World * option (SentTo * nat) :=
  match Notification_of message_type message_data with
  | None => (w, None)
  | Some notification => send_notification w notification target_type target_id
  end.

(** ** The older registry: the rest of its operations *)

Module LegacyChannels.

(** [unsubscribe]: the id leaves the list of the channel when it is there. *)
Definition unsubscribe (w : Legacy.World) (cid channel : string) : Legacy.World :=
  match Legacy.channels (Legacy.manager w) !! channel with
  | None => w
  | Some clients =>
      if decide (cid ∈ clients) then
        {| Legacy.manager :=
             {| Legacy.active_connections :=
                  Legacy.active_connections (Legacy.manager w);
                Legacy.channels :=
                  <[channel := Legacy.list_remove cid clients]>
                    (Legacy.channels (Legacy.manager w)) |};
           Legacy.net := Legacy.net w |}
      else w
  end.

(** The [for client_id in self.channels[channel]:] of [broadcast]. The loop
    walks the list object of the channel by position while [send_message]
    may remove ids from that same list: each turn reads position [i] of the
    list as it is by then. The list never grows during the loop, so the
    length it had at the start bounds the number of turns. *)
Fixpoint broadcast_loop (turns : nat) (w : Legacy.World) (channel : string)
    (message : Notification) (i : nat) : Legacy.World :=
  match turns with
  | 0 => w
  | S turns' =>
      match default [] (Legacy.channels (Legacy.manager w) !! channel) !! i with
      | None => w
      | Some cid =>
          broadcast_loop turns' (Legacy.send_message w cid message) channel
                         message (S i)
      end
  end.

Definition broadcast (w : Legacy.World) (channel : string) (message : Notification)
  : Legacy.World :=
  match Legacy.channels (Legacy.manager w) !! channel with
  | None => w
  | Some clients => broadcast_loop (length clients) w channel message 0
  end.

(** [notify_threat_detection]: a [threat_detected] message to the channel
    [threats]. *)
Definition notify_threat_detection (w : Legacy.World)
    (threat_data : list (string * Value)) : Legacy.World :=
  broadcast w "threats" {| type := THREAT_DETECTED; data := threat_data |}.

(** The operations of the older registry, for sequences of them. *)
Inductive Op :=
| OpConnect (ws : nat) (cid : string)
| OpDisconnect (cid : string)
| OpSubscribe (cid channel : string)
| OpUnsubscribe (cid channel : string)
| OpBroadcast (channel : string) (message : Notification).

Definition step (w : Legacy.World) (o : Op) : Legacy.World :=
  match o with
  | OpConnect ws cid => Legacy.connect w ws cid
  | OpDisconnect cid => Legacy.disconnect w cid
  | OpSubscribe cid channel => Legacy.subscribe w cid channel
  | OpUnsubscribe cid channel => unsubscribe w cid channel
  | OpBroadcast channel message => broadcast w channel message
  end.

Definition legacy_init (t : Transport) : Legacy.World :=
  {| Legacy.manager := {| Legacy.active_connections := []; Legacy.channels := ∅ |};
     Legacy.net := t |}.

(** No channel lists an id twice. *)
Definition channels_NoDup (w : Legacy.World) : Prop :=
  ∀ channel clients,
    Legacy.channels (Legacy.manager w) !! channel = Some clients → NoDup clients.

(** The frames a loop over [clients] writes when no write fails: one per id
    that is connected, in the order of the list. *)
Definition frames_to (w : Legacy.World) (clients : list string)
    (message : Notification) : list (nat * Notification) :=
  omap (fun cid =>
          match PyDict.get (Legacy.active_connections (Legacy.manager w)) cid with
          | Some ws => Some (ws, message)
          | None => None
          end) clients.

End LegacyChannels.

(** ** Frames written by the targeted sends *)

(** The frames [send_to_user], [send_to_scan] and [send_to_group] write for
    the ids they walk: one for each id whose send succeeds. *)
Definition frames_for (w : World) (ids : list string) (n : Notification)
  : list (nat * Notification) :=
  omap (fun cid =>
          match PyDict.get (active_connections (manager w)) cid with
          | Some r =>
              match heap w !! r with
              | Some client =>
                  if writable (net w) client then Some (websocket client, n)
                  else None
              | None => None
              end
          | None => None
          end) ids.

(** ** What a running session keeps of the state it started in *)

(** [w2] is a state of the session that registered the object [r] under
    [cid] in [w1]: the registry is still coherent and free of empty entries,
    the primary map and the user and scan indexes are those of [w1], the
    entries of other ids in the group index are those of [w1], and the
    client of the session has the user and scan id it was given. *)
Record session_kept (cid : string) (r : nat) (w1 w2 : World) : Prop := {
  kept_coherent : coherent w2;
  kept_no_empty : no_empty_entries (manager w2);
  kept_active :
    active_connections (manager w2) = active_connections (manager w1);
  kept_user : user_connections (manager w2) = user_connections (manager w1);
  kept_scan : scan_connections (manager w2) = scan_connections (manager w1);
  kept_others : ∀ x g, x ≠ cid →
    (x ∈ members (group_connections (manager w2)) g ↔
     x ∈ members (group_connections (manager w1)) g);
  kept_client : ∃ c1 c2,
    heap w1 !! r = Some c1 ∧ heap w2 !! r = Some c2 ∧
    user_id c2 = user_id c1 ∧ scan_id c2 = scan_id c1
}.

Definition internal_server_error : Notification :=
  {| type := ERROR; data := [("message", Str "Internal server error")] |}.

Definition connected_frame (cid : string) : Notification :=
  {| type := CONNECTED; data := [("client_id", Str cid)] |}.

Definition user_joined_frame (u cid : string) : Notification :=
  {| type := USER_JOINED; data := [("user_id", Str u); ("client_id", Str cid)] |}.

(** The test of [get_connections] on a dictionary of its answer. *)
Definition info_passes (uid : option string) (ctype : option ConnectionType)
    (sid : option string) (info : ConnectionInfo) : bool :=
  match truthy uid with
  | Some u => bool_decide (info_user_id info = Some u)
  | None => true
  end &&
  match ctype with
  | Some t => bool_decide (info_connection_type info = Some t)
  | None => true
  end &&
  match truthy sid with
  | Some s => bool_decide (info_scan_id info = Some s)
  | None => true
  end.

(** The target types [send_notification] knows. *)
Definition target_types : list string :=
  ["broadcast"; "user"; "group"; "client"; "scan"].

(** ** [core/security/jwt.py]: the dependencies that guard the routes

    [verify_jwt_token] decodes the token with the JWT library and builds the
    payload; here it is a function from the token to the payload or to the
    exception it raises. The extraction of the credentials from the request
    is the framework's and is left out: [JWTBearer_call] starts where the
    token is at hand. *)

Module Jwt.

Inductive Raised :=
| ExpiredSignatureError
| InvalidTokenError
| HTTPException (status_code : nat)
| OtherException.

Record TokenPayload := {
  sub : string;
  email : string;
  role : string
}.

(** The [try] of [JWTBearer.__call__]: the token is verified, then the role
    is checked when roles are required; the [HTTPException] of the role
    check is raised inside the [try]. *)
Definition JWTBearer_try (required_roles : list string)
    (verify_jwt_token : string -> Raised + TokenPayload) (token : string)
  : Raised + TokenPayload :=
  match verify_jwt_token token with
  | inl e => inl e
  | inr payload =>
      if bool_decide (required_roles ≠ []) && bool_decide (role payload ∉ required_roles)
      then inl (HTTPException 403)
      else inr payload
  end.

(** The three [except] clauses, in their order; the last one catches every
    other exception. *)
Definition JWTBearer_call (required_roles : list string)
    (verify_jwt_token : string -> Raised + TokenPayload) (token : string)
  : Raised + TokenPayload :=
  match JWTBearer_try required_roles verify_jwt_token token with
  | inl ExpiredSignatureError => inl (HTTPException 401)
  | inl InvalidTokenError => inl (HTTPException 401)
  | inl _ => inl (HTTPException 500)
  | inr payload => inr payload
  end.

(** [get_current_user]: no token is a 401; the two token errors become 401,
    any other exception goes on as it is. *)
Definition get_current_user (verify_jwt_token : string -> Raised + TokenPayload)
    (token : option string) : Raised + TokenPayload :=
  match token with
  | None => inl (HTTPException 401)
  | Some credentials =>
      match verify_jwt_token credentials with
      | inl ExpiredSignatureError => inl (HTTPException 401)
      | inl InvalidTokenError => inl (HTTPException 401)
      | inl e => inl e
      | inr payload => inr payload
      end
  end.

(** [get_current_admin_user] on top of [get_current_user]. *)
Definition get_current_admin_user
    (verify_jwt_token : string -> Raised + TokenPayload) (token : option string)
  : Raised + TokenPayload :=
  match get_current_user verify_jwt_token token with
  | inl e => inl e
  | inr current_user =>
      if decide (role current_user = "admin") then inr current_user
      else inl (HTTPException 403)
  end.

(** [requires_auth], [requires_admin] and [requires_editor]. *)
Definition requires_auth := JWTBearer_call [].
Definition requires_admin := JWTBearer_call ["admin"].
Definition requires_editor := JWTBearer_call ["editor"; "admin"].

End Jwt.

(** * Properties *)

(** ** The ordered dictionary *)

Module PyDictFacts.
Import PyDict.

Section Facts.
Context {V : Type}.
Implicit Types (d : list (string * V)) (k : string) (v : V).

Lemma get_set_eq d k v : get (set d k v) k = Some v.
Proof.
  induction d as [|[k' v'] d IH]; simpl.
  - by rewrite decide_True.
  - destruct (decide (k' = k)) as [->|Hne]; simpl.
    + by rewrite decide_True.
    + by rewrite decide_False.
Qed.

Lemma get_set_ne d k k' v : k ≠ k' → get (set d k v) k' = get d k'.
Proof.
  intros Hne. induction d as [|[k0 v0] d IH]; simpl.
  - by rewrite decide_False.
  - destruct (decide (k0 = k)) as [->|Hne0]; simpl.
    + by rewrite !decide_False.
    + by rewrite IH.
Qed.

Lemma get_pop_eq d k : get (pop d k) k = None.
Proof.
  induction d as [|[k' v'] d IH]; simpl; [done|].
  destruct (decide (k' = k)) as [->|Hne]; simpl; [done|].
  by rewrite decide_False.
Qed.

Lemma get_pop_ne d k k' : k ≠ k' → get (pop d k) k' = get d k'.
Proof.
  intros Hne. induction d as [|[k0 v0] d IH]; simpl; [done|].
  destruct (decide (k0 = k)) as [->|Hne0]; simpl.
  - by rewrite decide_False.
  - by rewrite IH.
Qed.

Lemma pop_absent d k : get d k = None → pop d k = d.
Proof.
  induction d as [|[k' v'] d IH]; simpl; [done|].
  destruct (decide (k' = k)); [done|]. intros H. by rewrite IH.
Qed.

Lemma elem_of_keys d k : k ∈ keys d ↔ is_Some (get d k).
Proof.
  unfold keys. induction d as [|[k' v'] d IH]; simpl.
  - split; [by intros ?%elem_of_nil | by intros [? ?]].
  - rewrite elem_of_cons. destruct (decide (k' = k)) as [->|Hne].
    + split; [eauto | by left].
    + rewrite <- IH. split; [by intros [?|?] | by right].
Qed.

Lemma keys_set_present d k v : is_Some (get d k) → keys (set d k v) = keys d.
Proof.
  unfold keys. induction d as [|[k' v'] d IH]; simpl.
  - by intros [? ?].
  - destruct (decide (k' = k)) as [->|Hne]; csimpl; [done|].
    intros H. f_equal. by apply IH.
Qed.

Lemma keys_set_absent d k v : get d k = None → keys (set d k v) = keys d ++ [k].
Proof.
  unfold keys. induction d as [|[k' v'] d IH]; simpl; [done|].
  destruct (decide (k' = k)) as [->|Hne]; csimpl; [done|].
  intros H. f_equal. by apply IH.
Qed.

Lemma keys_pop d k : keys (pop d k) = filter (fun k' => k' ≠ k) (keys d).
Proof.
  unfold keys. induction d as [|[k' v'] d IH]; [done|]. simpl.
  rewrite filter_cons. simpl.
  destruct (decide (k' = k)) as [->|Hne].
  - rewrite decide_False by naive_solver. exact IH.
  - rewrite decide_True by done. csimpl. f_equal. exact IH.
Qed.

(** The keys of a dictionary stay pairwise distinct. *)
Lemma set_NoDup d k v : NoDup (keys d) → NoDup (keys (set d k v)).
Proof.
  intros Hnd. destruct (get d k) as [v0|] eqn:Hk.
  - rewrite keys_set_present by eauto. done.
  - rewrite keys_set_absent by done.
    apply NoDup_app. split; [done|]. split; [|apply NoDup_singleton].
    intros x Hx ->%list_elem_of_singleton.
    apply elem_of_keys in Hx as [? ?]. congruence.
Qed.

Lemma pop_NoDup d k : NoDup (keys d) → NoDup (keys (pop d k)).
Proof. intros Hnd. rewrite keys_pop. by apply NoDup_filter. Qed.

End Facts.
End PyDictFacts.

(** ** The secondary indexes *)

Section Index.
Implicit Types (index : gmap string (gset string)) (k v : string).

Lemma members_index_add index k v k' :
  members (index_add index k v) k' =
  if decide (k = k') then {[v]} ∪ members index k else members index k'.
Proof.
  unfold index_add, members at 1.
  destruct (decide (k = k')) as [->|Hne].
  - by rewrite lookup_insert_eq.
  - by rewrite lookup_insert_ne.
Qed.

Lemma members_index_discard index k v k' :
  members (index_discard index k v) k' =
  if decide (k = k') then members index k ∖ {[v]} else members index k'.
Proof.
  unfold index_discard, members.
  destruct (index !! k) as [s|] eqn:Hk.
  - destruct (decide (s ∖ {[v]} = ∅)) as [He|He];
      destruct (decide (k = k')) as [<-|Hne].
    + rewrite lookup_delete_eq. simpl. by rewrite He.
    + by rewrite lookup_delete_ne.
    + by rewrite lookup_insert_eq.
    + by rewrite lookup_insert_ne.
  - destruct (decide (k = k')) as [<-|Hne]; [|done].
    rewrite ?Hk. simpl. set_solver.
Qed.

Lemma members_fold_add index (l : list string) v k :
  members (foldl (fun idx g => index_add idx g v) index l) k =
  if decide (k ∈ l) then {[v]} ∪ members index k else members index k.
Proof.
  revert index. induction l as [|g l IH]; intros index; cbn [foldl].
  - rewrite decide_False; [done | apply not_elem_of_nil].
  - rewrite IH, members_index_add.
    destruct (decide (g = k)) as [->|Hne].
    + rewrite (decide_True (P := k ∈ k :: l)); [|by left].
      destruct (decide (k ∈ l)); set_solver.
    + destruct (decide (k ∈ l)) as [Hin|Hin].
      * rewrite decide_True; [done | by right].
      * rewrite decide_False; [done|]. rewrite elem_of_cons. naive_solver.
Qed.

Lemma members_fold_discard index (l : list string) v k :
  members (foldl (fun idx g => index_discard idx g v) index l) k =
  if decide (k ∈ l) then members index k ∖ {[v]} else members index k.
Proof.
  revert index. induction l as [|g l IH]; intros index; cbn [foldl].
  - rewrite decide_False; [done | apply not_elem_of_nil].
  - rewrite IH, members_index_discard.
    destruct (decide (g = k)) as [->|Hne].
    + rewrite (decide_True (P := k ∈ k :: l)); [|by left].
      destruct (decide (k ∈ l)); set_solver.
    + destruct (decide (k ∈ l)) as [Hin|Hin].
      * rewrite decide_True; [done | by right].
      * rewrite decide_False; [done|]. rewrite elem_of_cons. naive_solver.
Qed.

Lemma members_index_add_all index (gs : gset string) v k :
  members (index_add_all index gs v) k =
  if decide (k ∈ gs) then {[v]} ∪ members index k else members index k.
Proof.
  unfold index_add_all. rewrite members_fold_add.
  destruct (decide (k ∈ elements gs)) as [H|H];
    rewrite elem_of_elements in H;
    first [by rewrite decide_True | by rewrite decide_False].
Qed.

Lemma members_index_discard_all index (gs : gset string) v k :
  members (index_discard_all index gs v) k =
  if decide (k ∈ gs) then members index k ∖ {[v]} else members index k.
Proof.
  unfold index_discard_all. rewrite members_fold_discard.
  destruct (decide (k ∈ elements gs)) as [H|H];
    rewrite elem_of_elements in H;
    first [by rewrite decide_True | by rewrite decide_False].
Qed.

Lemma members_index_add_opt index (key : option string) v k :
  members (index_add_opt index key v) k =
  if decide (truthy key = Some k) then {[v]} ∪ members index k else members index k.
Proof.
  unfold index_add_opt. destruct (truthy key) as [k0|].
  - rewrite members_index_add. destruct (decide (k0 = k)) as [->|Hne].
    + by rewrite decide_True.
    + rewrite decide_False; [done | congruence].
  - by rewrite decide_False.
Qed.

Lemma members_index_discard_opt index (key : option string) v k :
  members (index_discard_opt index key v) k =
  if decide (truthy key = Some k) then members index k ∖ {[v]} else members index k.
Proof.
  unfold index_discard_opt. destruct (truthy key) as [k0|].
  - rewrite members_index_discard. destruct (decide (k0 = k)) as [->|Hne].
    + by rewrite decide_True.
    + rewrite decide_False; [done | congruence].
  - by rewrite decide_False.
Qed.

Lemma truthy_Some (o : option string) (s : string) :
  truthy o = Some s → o = Some s ∧ s ≠ "".
Proof.
  destruct o as [x|]; simpl; [|done].
  destruct (decide (x = "")); [done|]. by intros [= ->].
Qed.

End Index.

(** ** Sending *)

Section Sending.
Implicit Types (w : World) (t : Transport) (c : WebSocketClient)
  (n : Notification) (cid : string).

Lemma send_json_spec t c n :
  send_json t c n =
  if writable t c
  then ({| broken := broken t; outbox := outbox t ++ [(websocket c, n)];
           closed := closed t |}, true)
  else (t, false).
Proof.
  unfold send_json, ws_send_json, writable.
  destruct (decide (websocket c ∈ broken t)) as [Hin|Hin].
  - by rewrite bool_decide_eq_false_2; [|intros ?].
  - by rewrite bool_decide_eq_true_2.
Qed.

Lemma send_json_broken t c n : broken (send_json t c n).1 = broken t.
Proof. rewrite send_json_spec. by destruct (writable t c). Qed.

Lemma send_json_closed t c n : closed (send_json t c n).1 = closed t.
Proof. rewrite send_json_spec. by destruct (writable t c). Qed.

Lemma send_to_client_heap w cid n : heap (send_to_client w cid n).1 = heap w.
Proof.
  unfold send_to_client.
  destruct (PyDict.get _ cid) as [r|]; [|done].
  destruct (heap w !! r) as [c|]; [|done].
  by destruct (send_json (net w) c n).
Qed.

Lemma send_to_client_manager w cid n :
  manager (send_to_client w cid n).1 = manager w.
Proof.
  unfold send_to_client.
  destruct (PyDict.get _ cid) as [r|]; [|done].
  destruct (heap w !! r) as [c|]; [|done].
  by destruct (send_json (net w) c n).
Qed.

Lemma broadcast_heap w n (e1 e2 : gset string) :
  heap (broadcast w n e1 e2).1 = heap w.
Proof. unfold broadcast. by destruct (foldl _ _ _). Qed.

Lemma broadcast_manager w n (e1 e2 : gset string) :
  manager (broadcast w n e1 e2).1 = manager w.
Proof. unfold broadcast. by destruct (foldl _ _ _). Qed.

Lemma broadcast_step_target w n (e1 e2 : gset string)
    (acc : Transport * gmap string bool) cid :
  broadcast_step (heap w) (manager w) n e1 e2 acc cid =
  match broadcast_target w e1 e2 cid with
  | None => acc
  | Some c => ((send_json acc.1 c n).1, <[cid := (send_json acc.1 c n).2]> acc.2)
  end.
Proof.
  unfold broadcast_step, broadcast_target.
  destruct (PyDict.get _ cid) as [r|]; [|done].
  destruct (heap w !! r) as [c|]; [|done].
  destruct (decide (cid ∈ e1)); [done|].
  destruct (user_excluded c e2); [done|].
  by destruct (send_json acc.1 c n).
Qed.

Lemma broadcast_walk w n (e1 e2 : gset string) t0 res0 (l : list string) :
  walked w n e1 e2 t0 res0 l
    (foldl (broadcast_step (heap w) (manager w) n e1 e2) (t0, res0) l).
Proof.
  induction l as [|a l IH] using rev_ind.
  - split; cbn [foldl fst snd]; try done.
    + intros cid. destruct (broadcast_target w e1 e2 cid); [|done].
      rewrite decide_False; [done | apply not_elem_of_nil].
    + intros x. split; [by left|].
      intros [?|(cid & c & Hin & _)]; [done | by apply elem_of_nil in Hin].
  - rewrite foldl_app. cbn [foldl].
    destruct (foldl _ (t0, res0) l) as [t res].
    destruct IH as [Hb Hc Hr Ho]. simpl in *.
    rewrite broadcast_step_target.
    destruct (broadcast_target w e1 e2 a) as [ca|] eqn:Ha.
    + assert (Hw : writable t ca = writable t0 ca)
        by (unfold writable; by rewrite Hb).
      split; simpl.
      * by rewrite send_json_broken.
      * by rewrite send_json_closed.
      * intros cid. destruct (decide (a = cid)) as [<-|Hne].
        -- rewrite lookup_insert_eq, Ha.
           rewrite decide_True; [|apply elem_of_app; right; by left].
           rewrite send_json_spec, Hw. by destruct (writable t0 ca).
        -- rewrite lookup_insert_ne by done. rewrite Hr.
           destruct (broadcast_target w e1 e2 cid); [|done].
           destruct (decide (cid ∈ l)) as [Hin|Hin].
           ++ rewrite decide_True; [done | apply elem_of_app; by left].
           ++ rewrite decide_False; [done|].
              rewrite elem_of_app, list_elem_of_singleton. naive_solver.
      * intros x. rewrite send_json_spec, Hw.
        destruct (writable t0 ca) eqn:Hwa; simpl.
        -- rewrite elem_of_app, list_elem_of_singleton, Ho. split.
           ++ intros [[?|(cid & c & Hin & ?)]| ->]; [by left| |].
              ** right. exists cid, c. rewrite elem_of_app. naive_solver.
              ** right. exists a, ca. rewrite elem_of_app, list_elem_of_singleton.
                 naive_solver.
           ++ intros [?|(cid & c & Hin & Ht & Hwc & ->)]; [by left; left|].
              apply elem_of_app in Hin as [Hin|Hin%list_elem_of_singleton].
              ** left; right. by exists cid, c.
              ** subst cid. rewrite Ha in Ht. injection Ht as ->. by right.
        -- rewrite Ho. split.
           ++ intros [?|(cid & c & Hin & ?)]; [by left|].
              right. exists cid, c. rewrite elem_of_app. naive_solver.
           ++ intros [?|(cid & c & Hin & Ht & Hwc & ->)]; [by left|].
              apply elem_of_app in Hin as [Hin|Hin%list_elem_of_singleton].
              ** right. by exists cid, c.
              ** subst cid. rewrite Ha in Ht. injection Ht as ->. congruence.
    + split; simpl; try done.
      * intros cid. rewrite Hr.
        destruct (broadcast_target w e1 e2 cid) as [c|] eqn:Hc'; [|done].
        destruct (decide (cid ∈ l)) as [Hin|Hin].
        -- rewrite decide_True; [done | apply elem_of_app; by left].
        -- rewrite decide_False; [done|].
           rewrite elem_of_app, list_elem_of_singleton. intros [?| ->]; [done|].
           congruence.
      * intros x. rewrite Ho. split.
        -- intros [?|(cid & c & Hin & ?)]; [by left|].
           right. exists cid, c. rewrite elem_of_app. naive_solver.
        -- intros [?|(cid & c & Hin & Ht & Hwc & ->)]; [by left|].
           apply elem_of_app in Hin as [Hin|Hin%list_elem_of_singleton].
           ++ right. by exists cid, c.
           ++ subst cid. congruence.
Qed.

End Sending.

(** ** Broadcast *)

Section Broadcast.
Implicit Types (w : World) (n : Notification) (cid : string).

Lemma user_excluded_empty (c : WebSocketClient) : user_excluded c ∅ = false.
Proof.
  unfold user_excluded. destruct (truthy (user_id c)); [|done].
  apply bool_decide_eq_false_2, not_elem_of_empty.
Qed.

Lemma broadcast_target_registered w (e1 e2 : gset string) cid c :
  broadcast_target w e1 e2 cid = Some c →
  registered w cid c ∧ (cid ∉ e1) ∧ user_excluded c e2 = false.
Proof.
  unfold broadcast_target, registered.
  destruct (PyDict.get _ cid) as [r|] eqn:Hr; [|done].
  destruct (heap w !! r) as [c'|] eqn:Hc; [|done].
  destruct (decide (cid ∈ e1)); [done|].
  destruct (user_excluded c' e2) eqn:He; [done|].
  intros [= <-]. eauto.
Qed.

Lemma broadcast_target_in_keys w (e1 e2 : gset string) cid c :
  broadcast_target w e1 e2 cid = Some c →
  cid ∈ PyDict.keys (active_connections (manager w)).
Proof.
  intros ([r [Hr _]] & _)%broadcast_target_registered.
  apply PyDictFacts.elem_of_keys. eauto.
Qed.

(** The result of a broadcast, entry by entry, and the frames it wrote. *)
Lemma broadcast_result w n (e1 e2 : gset string) cid :
  (broadcast w n e1 e2).2 !! cid =
  (writable (net w) <$> broadcast_target w e1 e2 cid).
Proof.
  unfold broadcast.
  pose proof (broadcast_walk w n e1 e2 (net w) ∅
                (PyDict.keys (active_connections (manager w)))) as Hwalk.
  destruct (foldl _ _ _) as [t res]. destruct Hwalk as [_ _ Hr _].
  simpl in *. rewrite Hr.
  destruct (broadcast_target w e1 e2 cid) as [c|] eqn:Ht; [|done].
  rewrite decide_True; [done|]. by eapply broadcast_target_in_keys.
Qed.

Lemma broadcast_outbox w n (e1 e2 : gset string) x :
  x ∈ outbox (net (broadcast w n e1 e2).1) ↔
  x ∈ outbox (net w) ∨
  ∃ cid c, broadcast_target w e1 e2 cid = Some c ∧
           writable (net w) c = true ∧ x = (websocket c, n).
Proof.
  unfold broadcast.
  pose proof (broadcast_walk w n e1 e2 (net w) ∅
                (PyDict.keys (active_connections (manager w)))) as Hwalk.
  destruct (foldl _ _ _) as [t res]. destruct Hwalk as [_ _ _ Ho].
  simpl in *. rewrite Ho. split.
  - intros [?|(cid & c & _ & ?)]; [by left | right; by exists cid, c].
  - intros [?|(cid & c & Ht & ?)]; [by left|].
    right. exists cid, c. split; [|done]. by eapply broadcast_target_in_keys.
Qed.

(** C2. Isolation under send failure: in a broadcast that targets [A], [B]
    and [C], where the write to [B] fails and the writes to [A] and [C]
    succeed, the frame is written to the sockets of [A] and [C], the loop
    runs to its end, and the result maps [A] to true, [B] to false and [C]
    to true; with no other registered id the result is exactly that
    dictionary. *)
Theorem broadcast_isolates_failure w n (e1 e2 : gset string)
    (A B C : string) (cA cB cC : WebSocketClient) :
  broadcast_target w e1 e2 A = Some cA →
  broadcast_target w e1 e2 B = Some cB →
  broadcast_target w e1 e2 C = Some cC →
  writable (net w) cA = true →
  writable (net w) cB = false →
  writable (net w) cC = true →
  (broadcast w n e1 e2).2 !! A = Some true ∧
  (broadcast w n e1 e2).2 !! B = Some false ∧
  (broadcast w n e1 e2).2 !! C = Some true ∧
  (websocket cA, n) ∈ outbox (net (broadcast w n e1 e2).1) ∧
  (websocket cC, n) ∈ outbox (net (broadcast w n e1 e2).1) ∧
  (PyDict.keys (active_connections (manager w)) ≡ₚ [A; B; C] →
   (broadcast w n e1 e2).2 = {[A := true; B := false; C := true]}).
Proof.
  intros HA HB HC HwA HwB HwC.
  repeat split.
  - by rewrite broadcast_result, HA; simpl; rewrite HwA.
  - by rewrite broadcast_result, HB; simpl; rewrite HwB.
  - by rewrite broadcast_result, HC; simpl; rewrite HwC.
  - apply broadcast_outbox. right. by exists A, cA.
  - apply broadcast_outbox. right. by exists C, cC.
  - intros Hkeys. apply map_eq. intros cid.
    rewrite broadcast_result.
    destruct (decide (cid = A)) as [->|HnA].
    { rewrite HA, lookup_insert_eq. simpl. by rewrite HwA. }
    rewrite lookup_insert_ne by done.
    destruct (decide (cid = B)) as [->|HnB].
    { rewrite HB, lookup_insert_eq. simpl. by rewrite HwB. }
    rewrite lookup_insert_ne by done.
    destruct (decide (cid = C)) as [->|HnC].
    { rewrite HC, lookup_singleton_eq. simpl. by rewrite HwC. }
    rewrite lookup_singleton_ne by done.
    destruct (broadcast_target w e1 e2 cid) as [c|] eqn:Ht; [|done].
    apply broadcast_target_in_keys in Ht. rewrite Hkeys in Ht.
    set_solver.
Qed.

Lemma broadcast_isolates_failure_witness :
  (broadcast abc_world alert ∅ ∅).2 !! "A" = Some true ∧
  (broadcast abc_world alert ∅ ∅).2 !! "B" = Some false ∧
  (broadcast abc_world alert ∅ ∅).2 !! "C" = Some true ∧
  (0, alert) ∈ outbox (net (broadcast abc_world alert ∅ ∅).1) ∧
  (2, alert) ∈ outbox (net (broadcast abc_world alert ∅ ∅).1) ∧
  (PyDict.keys (active_connections (manager abc_world)) ≡ₚ ["A"; "B"; "C"] →
   (broadcast abc_world alert ∅ ∅).2 = {["A" := true; "B" := false; "C" := true]}).
Proof.
  apply (broadcast_isolates_failure abc_world alert ∅ ∅ "A" "B" "C"
           (public_client 0 "A") (public_client 1 "B") (public_client 2 "C"));
    vm_compute; reflexivity.
Defined.

Lemma broadcast_target_excluding w (a : string) cid c :
  broadcast_target w {[a]} ∅ cid = Some c ↔ registered w cid c ∧ cid ≠ a.
Proof.
  unfold broadcast_target, registered.
  destruct (PyDict.get _ cid) as [r|] eqn:Hr.
  - destruct (heap w !! r) as [c'|] eqn:Hc.
    + destruct (decide (cid ∈ {[a]})) as [Hin|Hin].
      * apply elem_of_singleton in Hin. split; [done | by intros [_ ?]].
      * rewrite user_excluded_empty. split.
        -- intros [= <-]. split; [eauto | set_solver].
        -- intros [(r' & [= <-] & Hc') _]. congruence.
    + split; [done|]. intros [(r' & [= <-] & Hc') _]. congruence.
  - split; [done | by intros [(r' & ? & _) _]].
Qed.

(** C6. Broadcast completeness with exclusion: a broadcast that excludes the
    id [a] tries a send for exactly the registered ids other than [a], each
    with the outcome of the write to its client, and the frames it writes go
    to the clients among them whose socket can be written; the set of ids it
    tries is the same for any other order of the same ids in the primary
    map. *)
Theorem broadcast_reaches_all_but_excluded w n (a : string) :
  refs_bound w →
  dom (broadcast w n {[a]} ∅).2 =
    list_to_set (PyDict.keys (active_connections (manager w))) ∖ {[a]} ∧
  (∀ cid c, registered w cid c → cid ≠ a →
            (broadcast w n {[a]} ∅).2 !! cid = Some (writable (net w) c)) ∧
  (∀ x, x ∈ outbox (net (broadcast w n {[a]} ∅).1) ↔
        x ∈ outbox (net w) ∨
        ∃ cid c, registered w cid c ∧ cid ≠ a ∧
                 writable (net w) c = true ∧ x = (websocket c, n)) ∧
  (∀ w', refs_bound w' →
         PyDict.keys (active_connections (manager w')) ≡ₚ
         PyDict.keys (active_connections (manager w)) →
         dom (broadcast w' n {[a]} ∅).2 = dom (broadcast w n {[a]} ∅).2).
Proof.
  assert (Hdom : ∀ w0, refs_bound w0 →
            dom (broadcast w0 n {[a]} ∅).2 =
            list_to_set (PyDict.keys (active_connections (manager w0))) ∖ {[a]}).
  { intros w0 Hb. apply set_eq. intros cid.
    rewrite elem_of_dom, broadcast_result, elem_of_difference,
      elem_of_list_to_set, PyDictFacts.elem_of_keys, not_elem_of_singleton.
    split.
    - intros [b Hb']. destruct (broadcast_target w0 {[a]} ∅ cid) as [c|] eqn:Ht;
        [|done].
      apply broadcast_target_excluding in Ht as [(r & Hr & _) Hne]. eauto.
    - intros [[r Hr] Hne]. destruct (Hb cid r Hr) as [c Hc].
      assert (Ht : broadcast_target w0 {[a]} ∅ cid = Some c)
        by (apply broadcast_target_excluding; split; [by exists r | done]).
      rewrite Ht. simpl. eauto. }
  intros Hb. split; [by apply Hdom|]. split; [|split].
  - intros cid c Hc Hne. rewrite broadcast_result.
    assert (Ht : broadcast_target w {[a]} ∅ cid = Some c)
      by by apply broadcast_target_excluding.
    by rewrite Ht.
  - intros x. rewrite broadcast_outbox. split.
    + intros [?|(cid & c & Ht & Hw & ->)]; [by left|].
      apply broadcast_target_excluding in Ht as [Hc Hne].
      right. by exists cid, c.
    + intros [?|(cid & c & Hc & Hne & Hw & ->)]; [by left|].
      right. exists cid, c. split; [|done].
      by apply broadcast_target_excluding.
  - intros w' Hb' Hperm. rewrite !Hdom by done.
    f_equal. apply set_eq. intros x. rewrite !elem_of_list_to_set.
    by rewrite Hperm.
Qed.

End Broadcast.

(** ** What each operation does to the store and to the registry *)

Section Frames.
Implicit Types (w : World) (cid : string).

Lemma connect_heap w ws cid uid ctype sid gs :
  heap (connect w ws cid uid ctype sid gs).1 =
  heap w ++ [{| websocket := ws; client_id := cid; user_id := uid;
                connection_type := ctype; scan_id := sid;
                groups := list_to_set gs |}].
Proof.
  unfold connect. destruct (truthy uid); simpl; [|done].
  by rewrite broadcast_heap.
Qed.

Lemma connect_manager w ws cid uid ctype sid gs :
  manager (connect w ws cid uid ctype sid gs).1 =
  register (manager w) (length (heap w))
    {| websocket := ws; client_id := cid; user_id := uid;
       connection_type := ctype; scan_id := sid; groups := list_to_set gs |}.
Proof.
  unfold connect. destruct (truthy uid); simpl; [|done].
  by rewrite broadcast_manager.
Qed.

Lemma connect_returns w ws cid uid ctype sid gs :
  (connect w ws cid uid ctype sid gs).2 = length (heap w).
Proof. unfold connect. by destruct (truthy uid). Qed.

Lemma disconnect_absent w cid :
  PyDict.get (active_connections (manager w)) cid = None → disconnect w cid = w.
Proof. unfold disconnect. by intros ->. Qed.

Lemma disconnect_heap w cid : heap (disconnect w cid) = heap w.
Proof.
  unfold disconnect.
  destruct (PyDict.get _ cid) as [r|]; [|done].
  destruct (heap w !! r) as [c|]; [|done].
  destruct (truthy (user_id c)); [|done].
  by rewrite broadcast_heap.
Qed.

Lemma disconnect_manager w cid r c :
  PyDict.get (active_connections (manager w)) cid = Some r →
  heap w !! r = Some c →
  manager (disconnect w cid) = unregister (manager w) cid c.
Proof.
  unfold disconnect. intros -> ->.
  destruct (truthy (user_id c)); [|done].
  by rewrite broadcast_manager.
Qed.

Lemma update_groups_missing turn w s gs :
  heap w !! session_client s = None → update_groups turn w s gs = w.
Proof. unfold update_groups. by intros ->. Qed.

Lemma update_groups_active turn w s gs :
  active_connections (manager (update_groups turn w s gs)) =
  active_connections (manager w).
Proof.
  unfold update_groups. destruct (heap w !! session_client s); [|done].
  by destruct (foldl _ _ _).
Qed.

Lemma update_groups_user turn w s gs :
  user_connections (manager (update_groups turn w s gs)) =
  user_connections (manager w).
Proof.
  unfold update_groups. destruct (heap w !! session_client s); [|done].
  by destruct (foldl _ _ _).
Qed.

Lemma update_groups_scan turn w s gs :
  scan_connections (manager (update_groups turn w s gs)) =
  scan_connections (manager w).
Proof.
  unfold update_groups. destruct (heap w !! session_client s); [|done].
  by destruct (foldl _ _ _).
Qed.

Lemma update_groups_net turn w s gs : net (update_groups turn w s gs) = net w.
Proof.
  unfold update_groups. destruct (heap w !! session_client s); [|done].
  by destruct (foldl _ _ _).
Qed.

Lemma update_groups_length turn w s gs :
  length (heap (update_groups turn w s gs)) = length (heap w).
Proof.
  unfold update_groups. destruct (heap w !! session_client s); [|done].
  destruct (foldl _ _ _). simpl. apply length_insert.
Qed.

(** The store after a group update: only the client of the session changes,
    and only in its groups. *)
Lemma update_groups_heap turn w s gs c :
  heap w !! session_client s = Some c →
  heap (update_groups turn w s gs) =
  <[session_client s :=
      with_groups c (foldl (turn (session_client_id s))
                           (groups c, group_connections (manager w)) gs).1]>
    (heap w) ∧
  group_connections (manager (update_groups turn w s gs)) =
  (foldl (turn (session_client_id s))
         (groups c, group_connections (manager w)) gs).2.
Proof.
  unfold update_groups. intros ->. by destruct (foldl _ _ _).
Qed.

End Frames.

(** ** References stay bound *)

Section Bound.

Lemma step_refs_bound (w : World) (o : Op) : refs_bound w → refs_bound (step w o).
Proof.
  intros Hb cid r. destruct o as [ws c0 uid ctype sid gs|c0|s gs|s gs]; simpl.
  - rewrite connect_manager, connect_heap. simpl.
    destruct (decide (c0 = cid)) as [->|Hne].
    + rewrite PyDictFacts.get_set_eq. intros [= <-].
      rewrite lookup_app_r by done. rewrite Nat.sub_diag. eauto.
    + rewrite PyDictFacts.get_set_ne by done. intros Hr.
      destruct (Hb cid r Hr) as [c Hc]. exists c.
      rewrite lookup_app_l; [done|]. by eapply lookup_lt_Some.
  - rewrite disconnect_heap.
    destruct (PyDict.get (active_connections (manager w)) c0) as [r0|] eqn:Hr0.
    + destruct (Hb c0 r0 Hr0) as [c Hc].
      rewrite (disconnect_manager w c0 r0 c) by done. simpl.
      destruct (decide (c0 = cid)) as [->|Hne].
      * by rewrite PyDictFacts.get_pop_eq.
      * rewrite PyDictFacts.get_pop_ne by done. apply Hb.
    + rewrite disconnect_absent by done. apply Hb.
  - unfold subscribe. rewrite update_groups_active. intros Hr.
    apply lookup_lt_is_Some. rewrite update_groups_length.
    apply lookup_lt_is_Some. by eapply Hb.
  - unfold unsubscribe. rewrite update_groups_active. intros Hr.
    apply lookup_lt_is_Some. rewrite update_groups_length.
    apply lookup_lt_is_Some. by eapply Hb.
Qed.

Lemma run_refs_bound (w : World) (ops : list Op) :
  refs_bound w → refs_bound (run w ops).
Proof.
  revert w. induction ops as [|o ops IH]; intros w Hb; [done|].
  simpl. apply IH. by apply step_refs_bound.
Qed.

Lemma fresh_refs_bound (t : Transport) : refs_bound (fresh_world t).
Proof. by intros cid r. Qed.

End Bound.

Lemma broadcast_reaches_all_but_excluded_witness :
  dom (broadcast abc_world alert {["A"]} ∅).2 =
    list_to_set (PyDict.keys (active_connections (manager abc_world))) ∖ {["A"]} ∧
  (∀ x, x ∈ outbox (net (broadcast abc_world alert {["A"]} ∅).1) ↔
        x ∈ outbox (net abc_world) ∨
        ∃ cid c, registered abc_world cid c ∧ cid ≠ "A" ∧
                 writable (net abc_world) c = true ∧ x = (websocket c, alert)).
Proof.
  destruct (broadcast_reaches_all_but_excluded abc_world alert "A")
    as (Hdom & _ & Hout & _).
  - apply run_refs_bound, fresh_refs_bound.
  - split; [exact Hdom | exact Hout].
Defined.

(** ** No empty index entries *)

Section NoEmpty.
Implicit Types (index : gmap string (gset string)) (k v : string).

Lemma no_empty_index_add index k v :
  no_empty_entry index → no_empty_entry (index_add index k v).
Proof.
  intros Hne k' s. unfold index_add.
  destruct (decide (k = k')) as [->|Hk].
  - rewrite lookup_insert_eq. intros [= <-]. set_solver.
  - rewrite lookup_insert_ne by done. apply Hne.
Qed.

Lemma no_empty_index_discard index k v :
  no_empty_entry index → no_empty_entry (index_discard index k v).
Proof.
  intros Hne k' s. unfold index_discard.
  destruct (index !! k) as [s0|] eqn:Hk; [|apply Hne].
  destruct (decide (s0 ∖ {[v]} = ∅)) as [He|He].
  - destruct (decide (k = k')) as [->|Hkk].
    + by rewrite lookup_delete_eq.
    + rewrite lookup_delete_ne by done. apply Hne.
  - destruct (decide (k = k')) as [->|Hkk].
    + rewrite lookup_insert_eq. by intros [= <-].
    + rewrite lookup_insert_ne by done. apply Hne.
Qed.

Lemma no_empty_fold (f : gmap string (gset string) → string → gmap string (gset string))
    (l : list string) index :
  (∀ idx g, no_empty_entry idx → no_empty_entry (f idx g)) →
  no_empty_entry index → no_empty_entry (foldl f index l).
Proof.
  intros Hf. revert index. induction l as [|g l IH]; intros index Hne; [done|].
  simpl. apply IH, Hf, Hne.
Qed.

Lemma no_empty_index_add_opt index (key : option string) v :
  no_empty_entry index → no_empty_entry (index_add_opt index key v).
Proof.
  unfold index_add_opt. destruct (truthy key); [|done].
  apply no_empty_index_add.
Qed.

Lemma no_empty_index_discard_opt index (key : option string) v :
  no_empty_entry index → no_empty_entry (index_discard_opt index key v).
Proof.
  unfold index_discard_opt. destruct (truthy key); [|done].
  apply no_empty_index_discard.
Qed.

Lemma no_empty_register (m : WebSocketManager) (r : nat) (c : WebSocketClient) :
  no_empty_entries m → no_empty_entries (register m r c).
Proof.
  intros (Hu & Hs & Hg). repeat split; simpl.
  - by apply no_empty_index_add_opt.
  - by apply no_empty_index_add_opt.
  - apply no_empty_fold; [|done]. intros. by apply no_empty_index_add.
Qed.

Lemma no_empty_unregister (m : WebSocketManager) (cid : string) (c : WebSocketClient) :
  no_empty_entries m → no_empty_entries (unregister m cid c).
Proof.
  intros (Hu & Hs & Hg). repeat split; simpl.
  - by apply no_empty_index_discard_opt.
  - by apply no_empty_index_discard_opt.
  - apply no_empty_fold; [|done]. intros. by apply no_empty_index_discard.
Qed.

Lemma no_empty_turns
    (turn : string → gset string * gmap string (gset string) → string →
            gset string * gmap string (gset string))
    (cid : string) (gs : list string) (acc : gset string * gmap string (gset string)) :
  (∀ a g, no_empty_entry a.2 → no_empty_entry (turn cid a g).2) →
  no_empty_entry acc.2 → no_empty_entry (foldl (turn cid) acc gs).2.
Proof.
  intros Hturn. revert acc. induction gs as [|g gs IH]; intros acc Hne; [done|].
  simpl. apply IH, Hturn, Hne.
Qed.

Lemma no_empty_subscribe_group (cid : string)
    (a : gset string * gmap string (gset string)) (g : string) :
  no_empty_entry a.2 → no_empty_entry (subscribe_group cid a g).2.
Proof.
  unfold subscribe_group. destruct (decide (g ∈ a.1)); [done|].
  apply no_empty_index_add.
Qed.

Lemma no_empty_unsubscribe_group (cid : string)
    (a : gset string * gmap string (gset string)) (g : string) :
  no_empty_entry a.2 → no_empty_entry (unsubscribe_group cid a g).2.
Proof.
  unfold unsubscribe_group. destruct (decide (g ∈ a.1)); [|done].
  apply no_empty_index_discard.
Qed.

Lemma no_empty_update_groups
    (turn : string → gset string * gmap string (gset string) → string →
            gset string * gmap string (gset string))
    (w : World) (s : Session) (gs : list string) :
  (∀ cid a g, no_empty_entry a.2 → no_empty_entry (turn cid a g).2) →
  no_empty_entries (manager w) →
  no_empty_entries (manager (update_groups turn w s gs)).
Proof.
  intros Hturn (Hu & Hs & Hg).
  destruct (heap w !! session_client s) as [c|] eqn:Hc.
  - destruct (update_groups_heap turn w s gs c Hc) as [_ Hgc].
    repeat split.
    + by rewrite update_groups_user.
    + by rewrite update_groups_scan.
    + rewrite Hgc. apply no_empty_turns; [apply Hturn | done].
  - by rewrite update_groups_missing.
Qed.

Lemma step_no_empty (w : World) (o : Op) :
  no_empty_entries (manager w) → no_empty_entries (manager (step w o)).
Proof.
  intros Hne. destruct o as [ws c0 uid ctype sid gs|c0|s gs|s gs]; simpl.
  - rewrite connect_manager. by apply no_empty_register.
  - unfold disconnect.
    destruct (PyDict.get _ c0) as [r|]; [|done].
    destruct (heap w !! r) as [c|]; [|done].
    destruct (truthy (user_id c)).
    + rewrite broadcast_manager. by apply no_empty_unregister.
    + by apply no_empty_unregister.
  - apply no_empty_update_groups; [|done]. apply no_empty_subscribe_group.
  - apply no_empty_update_groups; [|done]. apply no_empty_unsubscribe_group.
Qed.

(** C10. No empty secondary-index entries: from a new manager, after any
    sequence of [connect], [disconnect], subscribe and unsubscribe, no key of
    [user_connections], [scan_connections] or [group_connections] maps to
    the empty set. *)
Theorem registry_keeps_no_empty_entry (t : Transport) (ops : list Op) :
  no_empty_entries (manager (run (fresh_world t) ops)).
Proof.
  assert (H : ∀ w, no_empty_entries (manager w) →
                   no_empty_entries (manager (run w ops))).
  { induction ops as [|o ops IH]; intros w Hw; [done|].
    simpl. apply IH. by apply step_no_empty. }
  apply H. repeat split; intros k s; simpl; by rewrite lookup_empty.
Qed.

End NoEmpty.

(** ** Unregistering twice *)

(** C5. Unregister idempotence: a second [disconnect] of the same id leaves
    the state (store, primary map, the three indexes, transport) as the
    first one left it, and [disconnect] of an id that is not in the primary
    map changes nothing and raises nothing. *)
Theorem disconnect_idempotent (w : World) (cid : string) :
  disconnect (disconnect w cid) cid = disconnect w cid ∧
  (PyDict.get (active_connections (manager w)) cid = None →
   disconnect w cid = w).
Proof.
  split; [|apply disconnect_absent].
  destruct (PyDict.get (active_connections (manager w)) cid) as [r|] eqn:Hr.
  - destruct (heap w !! r) as [c|] eqn:Hc.
    + apply disconnect_absent.
      rewrite (disconnect_manager w cid r c) by done. simpl.
      apply PyDictFacts.get_pop_eq.
    + assert (E : disconnect w cid = w)
        by (unfold disconnect; by rewrite Hr, Hc).
      by rewrite !E.
  - assert (E : disconnect w cid = w) by by apply disconnect_absent.
    by rewrite !E.
Qed.

(** ** Membership in the indexes after an update *)

Section Membership.
Implicit Types (index : gmap string (gset string)) (k v x : string).

Lemma elem_members_add_opt index (key : option string) v k x :
  x ∈ members (index_add_opt index key v) k ↔
  x ∈ members index k ∨ (x = v ∧ truthy key = Some k).
Proof.
  rewrite members_index_add_opt.
  destruct (decide (truthy key = Some k)); set_solver.
Qed.

Lemma elem_members_discard_opt index (key : option string) v k x :
  x ∈ members (index_discard_opt index key v) k ↔
  x ∈ members index k ∧ ¬ (x = v ∧ truthy key = Some k).
Proof.
  rewrite members_index_discard_opt.
  destruct (decide (truthy key = Some k)); set_solver.
Qed.

Lemma elem_members_add_all index (gs : gset string) v k x :
  x ∈ members (index_add_all index gs v) k ↔
  x ∈ members index k ∨ (x = v ∧ k ∈ gs).
Proof.
  rewrite members_index_add_all. destruct (decide (k ∈ gs)); set_solver.
Qed.

Lemma elem_members_discard_all index (gs : gset string) v k x :
  x ∈ members (index_discard_all index gs v) k ↔
  x ∈ members index k ∧ ¬ (x = v ∧ k ∈ gs).
Proof.
  rewrite members_index_discard_all. destruct (decide (k ∈ gs)); set_solver.
Qed.

(** The subscribe loop: the client gains the groups of the frame, and its id
    is added under those it did not hold. *)
Lemma subscribe_fold v (gs : list string) (held : gset string) index :
  (foldl (subscribe_group v) (held, index) gs).1 = held ∪ list_to_set gs ∧
  ∀ x k, x ∈ members (foldl (subscribe_group v) (held, index) gs).2 k ↔
         x ∈ members index k ∨ (x = v ∧ k ∈ gs ∧ k ∉ held).
Proof.
  revert held index. induction gs as [|g gs IH]; intros held index.
  - cbn [foldl fst snd]. split; [set_solver|].
    intros x k. rewrite elem_of_nil. naive_solver.
  - cbn [foldl]. unfold subscribe_group at 2 4. cbn [fst snd].
    destruct (decide (g ∈ held)) as [Hin|Hin].
    + destruct (IH held index) as [IH1 IH2]. split.
      * rewrite IH1. set_solver.
      * intros x k. rewrite IH2, elem_of_cons. naive_solver.
    + destruct (IH ({[g]} ∪ held) (index_add index g v)) as [IH1 IH2]. split.
      * rewrite IH1. set_solver.
      * intros x k. rewrite IH2, members_index_add, elem_of_cons.
        destruct (decide (g = k)) as [->|Hne]; set_solver.
Qed.

(** The unsubscribe loop: the client loses the groups of the frame, and its
    id is removed from under those it held. *)
Lemma unsubscribe_fold v (gs : list string) (held : gset string) index :
  (foldl (unsubscribe_group v) (held, index) gs).1 = held ∖ list_to_set gs ∧
  ∀ x k, x ∈ members (foldl (unsubscribe_group v) (held, index) gs).2 k ↔
         x ∈ members index k ∧ ¬ (x = v ∧ k ∈ gs ∧ k ∈ held).
Proof.
  revert held index. induction gs as [|g gs IH]; intros held index.
  - cbn [foldl fst snd]. split; [set_solver|].
    intros x k. rewrite elem_of_nil. naive_solver.
  - cbn [foldl]. unfold unsubscribe_group at 2 4. cbn [fst snd].
    destruct (decide (g ∈ held)) as [Hin|Hin].
    + destruct (IH (held ∖ {[g]}) (index_discard index g v)) as [IH1 IH2]. split.
      * rewrite IH1. set_solver.
      * intros x k. rewrite IH2, members_index_discard, elem_of_cons.
        destruct (decide (g = k)) as [->|Hne]; set_solver.
    + destruct (IH held index) as [IH1 IH2]. split.
      * rewrite IH1. set_solver.
      * intros x k. rewrite IH2, elem_of_cons. naive_solver.
Qed.

End Membership.

(** ** Coherence is kept by orderly operations *)

Section Coherence.
Implicit Types (w : World) (cid : string) (c : WebSocketClient).

Lemma registered_functional w cid c c' :
  registered w cid c → registered w cid c' → c = c'.
Proof. intros [r [Hr Hc]] [r' [Hr' Hc']]. congruence. Qed.

Lemma keyed_refs_bound w : keyed_by_id w → refs_bound w.
Proof. intros Hk cid r Hr. destruct (Hk cid r Hr) as (c & Hc & _). eauto. Qed.

Lemma keyed_registered w cid c :
  keyed_by_id w → registered w cid c → client_id c = cid.
Proof.
  intros Hk [r [Hr Hc]]. destruct (Hk cid r Hr) as (c' & Hc' & <-). congruence.
Qed.

Lemma fresh_coherent (t : Transport) : coherent (fresh_world t).
Proof.
  split.
  - by intros cid r.
  - intros cid g. unfold members. simpl. rewrite lookup_empty. simpl. split.
    + by intros ?%not_elem_of_empty.
    + by intros (c & [r [? _]] & _).
  - intros cid u. unfold members. simpl. rewrite lookup_empty.
    by intros ?%not_elem_of_empty.
  - intros cid u. unfold members. simpl. rewrite lookup_empty.
    by intros ?%not_elem_of_empty.
Qed.

(** *** [connect] under an id that is not registered *)

Lemma registered_connect w ws cid0 uid ctype sid gs cid c :
  keyed_by_id w →
  PyDict.get (active_connections (manager w)) cid0 = None →
  registered (connect w ws cid0 uid ctype sid gs).1 cid c ↔
  (cid = cid0 ∧
   c = {| websocket := ws; client_id := cid0; user_id := uid;
          connection_type := ctype; scan_id := sid; groups := list_to_set gs |}) ∨
  (cid ≠ cid0 ∧ registered w cid c).
Proof.
  intros Hk Hnew. unfold registered.
  rewrite connect_manager, connect_heap. simpl.
  destruct (decide (cid0 = cid)) as [->|Hne].
  - rewrite PyDictFacts.get_set_eq. split.
    + intros (r & [= <-] & Hc). left. split; [done|].
      rewrite lookup_app_r in Hc by done. rewrite Nat.sub_diag in Hc.
      by injection Hc.
    + intros [[_ ->]|[? _]]; [|done].
      eexists. split; [done|].
      rewrite lookup_app_r by done. by rewrite Nat.sub_diag.
  - rewrite PyDictFacts.get_set_ne by done. split.
    + intros (r & Hr & Hc). right. split; [done|]. exists r. split; [done|].
      destruct (Hk cid r Hr) as (c' & Hc' & _).
      rewrite lookup_app_l in Hc; [done|]. by eapply lookup_lt_Some.
    + intros [[? _]|[_ (r & Hr & Hc)]]; [done|].
      exists r. split; [done|].
      rewrite lookup_app_l; [done|]. by eapply lookup_lt_Some.
Qed.

Lemma connect_coherent w ws cid0 uid ctype sid gs :
  coherent w →
  PyDict.get (active_connections (manager w)) cid0 = None →
  coherent (connect w ws cid0 uid ctype sid gs).1.
Proof.
  intros [Hk Hg Hu Hs] Hnew.
  assert (Hreg := fun cid c =>
            registered_connect w ws cid0 uid ctype sid gs cid c Hk Hnew).
  assert (Hold : ∀ cid c, registered w cid c → cid ≠ cid0).
  { intros cid c [r [Hr _]] ->. congruence. }
  split.
  - intros cid r Hr.
    assert (Hb : is_Some (heap (connect w ws cid0 uid ctype sid gs).1 !! r)).
    { eapply (step_refs_bound w (OpConnect ws cid0 uid ctype sid gs)); [|exact Hr].
      by apply keyed_refs_bound. }
    destruct Hb as [c Hc]. exists c. split; [done|].
    assert (Hrc : registered (connect w ws cid0 uid ctype sid gs).1 cid c)
      by (exists r; done).
    apply Hreg in Hrc as [[-> ->]|[_ Hrc]]; [done|].
    by eapply keyed_registered.
  - intros cid g. rewrite connect_manager. simpl.
    rewrite elem_members_add_all, (Hg cid g). split.
    + intros [(c & Hc & Hid & Hin)|[-> Hin]].
      * exists c. split; [|done]. apply Hreg. right. split; [|done]. by eapply Hold.
      * eexists. split; [apply Hreg; left; done|]. done.
    + intros (c & Hc & Hid & Hin). apply Hreg in Hc as [[-> ->]|[_ Hc]].
      * by right.
      * left. by exists c.
  - intros cid u. rewrite connect_manager. simpl.
    rewrite elem_members_add_opt. intros [Hin|[-> Htr]].
    + destruct (Hu cid u Hin) as (c & Hc & Htr). exists c. split; [|done].
      apply Hreg. right. split; [|done]. by eapply Hold.
    + eexists. split; [apply Hreg; left; done|]. done.
  - intros cid s. rewrite connect_manager. simpl.
    rewrite elem_members_add_opt. intros [Hin|[-> Htr]].
    + destruct (Hs cid s Hin) as (c & Hc & Htr). exists c. split; [|done].
      apply Hreg. right. split; [|done]. by eapply Hold.
    + eexists. split; [apply Hreg; left; done|]. done.
Qed.

(** *** [disconnect] *)

Lemma registered_disconnect w cid0 r0 c0 cid c :
  PyDict.get (active_connections (manager w)) cid0 = Some r0 →
  heap w !! r0 = Some c0 →
  registered (disconnect w cid0) cid c ↔ cid ≠ cid0 ∧ registered w cid c.
Proof.
  intros Hr0 Hc0. unfold registered.
  rewrite disconnect_heap, (disconnect_manager w cid0 r0 c0) by done. simpl.
  destruct (decide (cid0 = cid)) as [->|Hne].
  - rewrite PyDictFacts.get_pop_eq. split; [by intros (? & ? & _) | by intros [? _]].
  - rewrite PyDictFacts.get_pop_ne by done. naive_solver.
Qed.

Lemma disconnect_coherent w cid0 : coherent w → coherent (disconnect w cid0).
Proof.
  intros Hcoh.
  destruct (PyDict.get (active_connections (manager w)) cid0) as [r0|] eqn:Hr0;
    [|by rewrite disconnect_absent].
  destruct Hcoh as [Hk Hg Hu Hs].
  destruct (Hk cid0 r0 Hr0) as (c0 & Hc0 & Hid0).
  assert (Hreg := fun cid c => registered_disconnect w cid0 r0 c0 cid c Hr0 Hc0).
  assert (H0 : registered w cid0 c0) by (exists r0; done).
  split.
  - intros cid r Hr. rewrite disconnect_heap.
    rewrite (disconnect_manager w cid0 r0 c0) in Hr by done. simpl in Hr.
    destruct (decide (cid0 = cid)) as [->|Hne].
    + by rewrite PyDictFacts.get_pop_eq in Hr.
    + rewrite PyDictFacts.get_pop_ne in Hr by done. by apply Hk.
  - intros cid g. rewrite (disconnect_manager w cid0 r0 c0) by done. simpl.
    rewrite elem_members_discard_all, (Hg cid g). split.
    + intros [(c & Hc & Hid & Hin) Hnot]. exists c. split; [|done].
      apply Hreg. split; [|done]. intros ->.
      apply Hnot. split; [done|].
      by rewrite (registered_functional w cid0 c0 c H0 Hc).
    + intros (c & Hc & Hid & Hin). apply Hreg in Hc as [Hne Hc].
      split; [by exists c | by intros [? _]].
  - intros cid u. rewrite (disconnect_manager w cid0 r0 c0) by done. simpl.
    rewrite elem_members_discard_opt. intros [Hin Hnot].
    destruct (Hu cid u Hin) as (c & Hc & Htr). exists c. split; [|done].
    apply Hreg. split; [|done]. intros ->. apply Hnot. split; [done|].
    by rewrite (registered_functional w cid0 c0 c H0 Hc).
  - intros cid s. rewrite (disconnect_manager w cid0 r0 c0) by done. simpl.
    rewrite elem_members_discard_opt. intros [Hin Hnot].
    destruct (Hs cid s Hin) as (c & Hc & Htr). exists c. split; [|done].
    apply Hreg. split; [|done]. intros ->. apply Hnot. split; [done|].
    by rewrite (registered_functional w cid0 c0 c H0 Hc).
Qed.

End Coherence.

(** ** Group updates by the session of a registered client *)

Section GroupUpdates.
Implicit Types (w : World) (s : Session) (cid : string) (c : WebSocketClient).

Lemma registered_update_groups turn w s gs c0 cid c :
  keyed_by_id w →
  PyDict.get (active_connections (manager w)) (session_client_id s)
    = Some (session_client s) →
  heap w !! session_client s = Some c0 →
  registered (update_groups turn w s gs) cid c ↔
  (cid = session_client_id s ∧
   c = with_groups c0
         (foldl (turn (session_client_id s))
                (groups c0, group_connections (manager w)) gs).1) ∨
  (cid ≠ session_client_id s ∧ registered w cid c).
Proof.
  intros Hk Hs Hc0. unfold registered.
  rewrite update_groups_active.
  destruct (update_groups_heap turn w s gs c0 Hc0) as [-> _].
  assert (Hlt : session_client s < length (heap w)) by by eapply lookup_lt_Some.
  destruct (decide (cid = session_client_id s)) as [->|Hne].
  - split.
    + intros (r & Hr & Hc). left. split; [done|].
      rewrite Hs in Hr. injection Hr as <-.
      rewrite list_lookup_insert_eq in Hc by done. by injection Hc.
    + intros [[_ ->]|[? _]]; [|done].
      exists (session_client s). split; [done|].
      by rewrite list_lookup_insert_eq.
  - assert (Hother : ∀ r, PyDict.get (active_connections (manager w)) cid = Some r →
                          r ≠ session_client s).
    { intros r Hr ->. destruct (Hk _ _ Hr) as (c1 & Hc1 & Hid1).
      destruct (Hk _ _ Hs) as (c2 & Hc2 & Hid2). congruence. }
    split.
    + intros (r & Hr & Hc). right. split; [done|]. exists r. split; [done|].
      rewrite list_lookup_insert_ne in Hc; [done|].
      intros Heq. by apply (Hother r Hr).
    + intros [[? _]|[_ (r & Hr & Hc)]]; [done|].
      exists r. split; [done|].
      rewrite list_lookup_insert_ne; [done|].
      intros Heq. by apply (Hother r Hr).
Qed.

Lemma coherent_groups_agree w s :
  coherent w →
  PyDict.get (active_connections (manager w)) (session_client_id s)
    = Some (session_client s) →
  groups_agree w s.
Proof.
  intros [Hk Hg _ _] Hs g. rewrite (Hg _ g). split.
  - intros (c & [r [Hr Hc]] & _ & Hin). exists c. split; [congruence | done].
  - intros (c & Hc & Hin). exists c. split; [by exists (session_client s)|].
    split; [|done]. destruct (Hk _ _ Hs) as (c' & Hc' & Hid). congruence.
Qed.

(** A loop that leaves the client of the session and the index in agreement,
    and the entries of other ids alone, keeps coherence. *)
Lemma update_groups_coherent turn w s gs c0 :
  coherent w →
  PyDict.get (active_connections (manager w)) (session_client_id s)
    = Some (session_client s) →
  heap w !! session_client s = Some c0 →
  (∀ x g,
     x ∈ members (foldl (turn (session_client_id s))
                        (groups c0, group_connections (manager w)) gs).2 g ↔
     if decide (x = session_client_id s)
     then g ∈ (foldl (turn (session_client_id s))
                     (groups c0, group_connections (manager w)) gs).1
     else x ∈ members (group_connections (manager w)) g) →
  coherent (update_groups turn w s gs).
Proof.
  intros [Hk Hg Hu Hsc] Hs Hc0 Hfold.
  assert (Hreg := fun cid c =>
            registered_update_groups turn w s gs c0 cid c Hk Hs Hc0).
  assert (Hkeep : ∀ cid c, registered w cid c →
            ∃ c', registered (update_groups turn w s gs) cid c' ∧
                  client_id c' = client_id c ∧ user_id c' = user_id c ∧
                  scan_id c' = scan_id c).
  { intros cid c Hc. destruct (decide (cid = session_client_id s)) as [->|Hne].
    - assert (c = c0) as ->
        by (eapply registered_functional; [done | by exists (session_client s)]).
      eexists. split; [apply Hreg; left; done|]. done.
    - exists c. split; [|done]. apply Hreg. by right. }
  split.
  - intros cid r Hr.
    assert (Hb : is_Some (heap (update_groups turn w s gs) !! r)).
    { apply lookup_lt_is_Some. rewrite update_groups_length.
      rewrite update_groups_active in Hr.
      destruct (Hk cid r Hr) as (c & Hc & _). by eapply lookup_lt_Some. }
    destruct Hb as [c Hc]. exists c. split; [done|].
    assert (Hrc : registered (update_groups turn w s gs) cid c) by (exists r; done).
    apply Hreg in Hrc as [[-> ->]|[_ Hrc]].
    + simpl. destruct (Hk _ _ Hs) as (c' & Hc' & Hid). congruence.
    + by eapply keyed_registered.
  - intros cid g.
    destruct (update_groups_heap turn w s gs c0 Hc0) as [_ ->].
    rewrite Hfold. destruct (decide (cid = session_client_id s)) as [->|Hne].
    + split.
      * intros Hin. eexists. split; [apply Hreg; left; done|]. simpl.
        split; [|done]. destruct (Hk _ _ Hs) as (c' & Hc' & Hid). congruence.
      * intros (c & Hc & _ & Hin). apply Hreg in Hc as [[_ ->]|[? _]]; done.
    + rewrite (Hg cid g). split.
      * intros (c & Hc & Hid & Hin). exists c. split; [|done].
        apply Hreg. by right.
      * intros (c & Hc & Hid & Hin). apply Hreg in Hc as [[? _]|[_ Hc]]; [done|].
        by exists c.
  - intros cid u. rewrite update_groups_user. intros Hin.
    destruct (Hu cid u Hin) as (c & Hc & Htr).
    destruct (Hkeep cid c Hc) as (c' & Hc' & _ & Huid & _).
    exists c'. split; [done|]. by rewrite Huid.
  - intros cid u. rewrite update_groups_scan. intros Hin.
    destruct (Hsc cid u Hin) as (c & Hc & Htr).
    destruct (Hkeep cid c Hc) as (c' & Hc' & _ & _ & Hsid).
    exists c'. split; [done|]. by rewrite Hsid.
Qed.

(** After a subscribe or an unsubscribe loop that started in agreement, the
    client of the session and the index agree again, and no other id moved. *)
Lemma subscribe_fold_agrees cid (gs : list string) (held : gset string)
    (index : gmap string (gset string)) :
  (∀ g, cid ∈ members index g ↔ g ∈ held) →
  ∀ x g, x ∈ members (foldl (subscribe_group cid) (held, index) gs).2 g ↔
         if decide (x = cid)
         then g ∈ (foldl (subscribe_group cid) (held, index) gs).1
         else x ∈ members index g.
Proof.
  intros Hpre x g. destruct (subscribe_fold cid gs held index) as [-> ->].
  destruct (decide (x = cid)) as [->|Hne].
  - rewrite Hpre, elem_of_union, elem_of_list_to_set.
    destruct (decide (g ∈ held)); naive_solver.
  - naive_solver.
Qed.

Lemma unsubscribe_fold_agrees cid (gs : list string) (held : gset string)
    (index : gmap string (gset string)) :
  (∀ g, cid ∈ members index g ↔ g ∈ held) →
  ∀ x g, x ∈ members (foldl (unsubscribe_group cid) (held, index) gs).2 g ↔
         if decide (x = cid)
         then g ∈ (foldl (unsubscribe_group cid) (held, index) gs).1
         else x ∈ members index g.
Proof.
  intros Hpre x g. destruct (unsubscribe_fold cid gs held index) as [-> ->].
  destruct (decide (x = cid)) as [->|Hne].
  - rewrite Hpre, elem_of_difference, elem_of_list_to_set. naive_solver.
  - naive_solver.
Qed.

Lemma step_coherent w (o : Op) :
  orderly_op w o = true → coherent w → coherent (step w o).
Proof.
  destruct o as [ws c0 uid ctype sid gs|c0|s gs|s gs]; simpl; intros Hok Hcoh.
  - apply connect_coherent; [done|]. by apply bool_decide_eq_true_1 in Hok.
  - by apply disconnect_coherent.
  - apply bool_decide_eq_true_1 in Hok.
    destruct (coherent_keyed w Hcoh _ _ Hok) as (c & Hc & _).
    apply (update_groups_coherent _ w s gs c); try done.
    apply subscribe_fold_agrees. intros g.
    rewrite (coherent_groups_agree w s Hcoh Hok g). naive_solver.
  - apply bool_decide_eq_true_1 in Hok.
    destruct (coherent_keyed w Hcoh _ _ Hok) as (c & Hc & _).
    apply (update_groups_coherent _ w s gs c); try done.
    apply unsubscribe_fold_agrees. intros g.
    rewrite (coherent_groups_agree w s Hcoh Hok g). naive_solver.
Qed.

Lemma run_coherent w (ops : list Op) :
  orderly w ops = true → coherent w → coherent (run w ops).
Proof.
  revert w. induction ops as [|o ops IH]; intros w Hok Hcoh; [done|].
  simpl in Hok. apply andb_true_iff in Hok as [Ho Hops].
  simpl. apply IH; [done|]. by apply step_coherent.
Qed.

Lemma keyed_active_value w (c : WebSocketClient) :
  keyed_by_id w → active_value w c ↔ registered w (client_id c) c.
Proof.
  intros Hk. split.
  - intros (key & r & Hr & Hc). destruct (Hk key r Hr) as (c' & Hc' & Hid).
    assert (c' = c) as -> by congruence. subst key. by exists r.
  - intros (r & Hr & Hc). by exists (client_id c), r.
Qed.

Lemma registered_active_value w cid c : registered w cid c → active_value w c.
Proof. intros (r & Hr & Hc). by exists cid, r. Qed.

Lemma coherent_consistent w : coherent w → registry_consistent w.
Proof.
  intros [Hk Hg Hu Hs]. split; [|split].
  - intros cid g. rewrite (Hg cid g). split.
    + intros (c & Hc & Hid & Hin). exists c. split; [|done].
      by eapply registered_active_value.
    + intros (c & Hc & Hid & Hin). exists c. split; [|done].
      apply (keyed_active_value w c Hk) in Hc. by rewrite Hid in Hc.
  - intros cid u Hin. destruct (Hu cid u Hin) as (c & Hc & Htr).
    exists c. split; [by eapply registered_active_value|].
    split; [by eapply keyed_registered|].
    by apply truthy_Some in Htr as [? _].
  - intros cid u Hin. destruct (Hs cid u Hin) as (c & Hc & Htr).
    exists c. split; [by eapply registered_active_value|].
    split; [by eapply keyed_registered|].
    by apply truthy_Some in Htr as [? _].
Qed.

End GroupUpdates.

(** ** The membership invariant *)

(** C1, as stated, fails: an id connected a second time while it is still
    registered stays listed under the group of the client it replaced. *)
Lemma connected_twice_inconsistent :
  ¬ registry_consistent (run (fresh_world quiet) connected_twice).
Proof.
  intros [Hg _].
  assert (Hin : "a" ∈ members (group_connections
                    (manager (run (fresh_world quiet) connected_twice))) "g1")
    by (vm_compute; reflexivity).
  apply Hg in Hin as (c & (key & r & Hr & Hc) & _ & Hin).
  assert (Hact : active_connections
                   (manager (run (fresh_world quiet) connected_twice)) = [("a", 1)])
    by (vm_compute; reflexivity).
  rewrite Hact in Hr. simpl in Hr.
  destruct (decide ("a" = key)); [|discriminate Hr].
  injection Hr as <-.
  vm_compute in Hc. injection Hc as <-.
  revert Hin. vm_compute. intros H. discriminate H.
Qed.

(** C1, amended. Registry group-membership invariant: from a new manager,
    after any sequence of [connect], [disconnect], subscribe and unsubscribe
    in which every [connect] brings an id that is not registered at that
    moment and every group update comes from the session of the client
    registered under its id, an id is listed under a group if and only if it
    is the id of a registered client that holds the group, and an id listed
    under a user (a scan) is the id of a registered client of that user
    (scan). *)
Theorem orderly_registry_consistent (t : Transport) (ops : list Op) :
  orderly (fresh_world t) ops = true →
  registry_consistent (run (fresh_world t) ops).
Proof.
  intros Hok. apply coherent_consistent, run_coherent; [done|].
  apply fresh_coherent.
Qed.

Lemma orderly_registry_consistent_witness :
  registry_consistent (run (fresh_world quiet) orderly_day).
Proof.
  apply (orderly_registry_consistent quiet orderly_day).
  vm_compute. reflexivity.
Defined.

(** ** [connect] under an id that is already registered *)

(** C3, as stated, fails: [connect] under a registered id changes the
    registry. *)
Lemma connect_duplicate_not_rejected :
  PyDict.get (active_connections (manager once_connected)) "a" = Some 0 ∧
  manager (connect once_connected 1 "a" (Some "u2") (Some USER) None ["g2"]).1
    ≠ manager once_connected ∧
  PyDict.get (active_connections (manager
     (connect once_connected 1 "a" (Some "u2") (Some USER) None ["g2"]).1)) "a"
    = Some 1.
Proof.
  split; [by vm_compute|]. split; [|by vm_compute].
  intros Heq.
  assert (H : PyDict.get (active_connections (manager
     (connect once_connected 1 "a" (Some "u2") (Some USER) None ["g2"]).1)) "a"
              = Some 1) by by vm_compute.
  rewrite Heq in H. vm_compute in H. discriminate H.
Qed.

(** C3, amended. [connect] has no check for a registered id: called with an
    id that is already a key of the primary map it builds the new client,
    stores it under that id in place of the client that was there (the keys
    and their order stay as they were, other ids keep their client), adds
    the id to the index entries of the new client's user id, scan id and
    groups without removing any earlier entry, and returns the new client;
    no error is reported. *)
Theorem connect_overwrites_registered (w : World) (ws : nat) (cid : string)
    (uid : option string) (ctype : option ConnectionType) (sid : option string)
    (gs : list string) (r0 : nat) :
  refs_bound w →
  PyDict.get (active_connections (manager w)) cid = Some r0 →
  (connect w ws cid uid ctype sid gs).2 ≠ r0 ∧
  heap (connect w ws cid uid ctype sid gs).1 !! (connect w ws cid uid ctype sid gs).2 =
    Some {| websocket := ws; client_id := cid; user_id := uid;
            connection_type := ctype; scan_id := sid; groups := list_to_set gs |} ∧
  PyDict.get (active_connections (manager (connect w ws cid uid ctype sid gs).1)) cid =
    Some (connect w ws cid uid ctype sid gs).2 ∧
  PyDict.keys (active_connections (manager (connect w ws cid uid ctype sid gs).1)) =
    PyDict.keys (active_connections (manager w)) ∧
  (∀ cid', cid' ≠ cid →
     PyDict.get (active_connections (manager (connect w ws cid uid ctype sid gs).1)) cid' =
     PyDict.get (active_connections (manager w)) cid') ∧
  (∀ x u, x ∈ members (user_connections (manager (connect w ws cid uid ctype sid gs).1)) u ↔
          x ∈ members (user_connections (manager w)) u ∨ (x = cid ∧ truthy uid = Some u)) ∧
  (∀ x s, x ∈ members (scan_connections (manager (connect w ws cid uid ctype sid gs).1)) s ↔
          x ∈ members (scan_connections (manager w)) s ∨ (x = cid ∧ truthy sid = Some s)) ∧
  (∀ x g, x ∈ members (group_connections (manager (connect w ws cid uid ctype sid gs).1)) g ↔
          x ∈ members (group_connections (manager w)) g ∨ (x = cid ∧ g ∈ gs)).
Proof.
  intros Hb Hr0.
  rewrite connect_returns, connect_heap, connect_manager. simpl.
  repeat split.
  - intros Heq. destruct (Hb cid r0 Hr0) as [c Hc].
    apply lookup_lt_Some in Hc. lia.
  - rewrite lookup_app_r by done. by rewrite Nat.sub_diag.
  - apply PyDictFacts.get_set_eq.
  - apply PyDictFacts.keys_set_present. eauto.
  - intros cid' Hne. by apply PyDictFacts.get_set_ne.
  - by apply elem_members_add_opt.
  - by apply elem_members_add_opt.
  - by apply elem_members_add_opt.
  - by apply elem_members_add_opt.
  - rewrite elem_members_add_all, elem_of_list_to_set. naive_solver.
  - rewrite elem_members_add_all, elem_of_list_to_set. naive_solver.
Qed.

Lemma connect_overwrites_registered_witness :
  (connect once_connected 1 "a" (Some "u2") (Some USER) None ["g2"]).2 ≠ 0 ∧
  heap (connect once_connected 1 "a" (Some "u2") (Some USER) None ["g2"]).1
    !! (connect once_connected 1 "a" (Some "u2") (Some USER) None ["g2"]).2 =
    Some {| websocket := 1; client_id := "a"; user_id := Some "u2";
            connection_type := Some USER; scan_id := None;
            groups := list_to_set ["g2"] |} ∧
  PyDict.get (active_connections (manager
      (connect once_connected 1 "a" (Some "u2") (Some USER) None ["g2"]).1)) "a" =
    Some (connect once_connected 1 "a" (Some "u2") (Some USER) None ["g2"]).2 ∧
  PyDict.keys (active_connections (manager
      (connect once_connected 1 "a" (Some "u2") (Some USER) None ["g2"]).1)) =
    PyDict.keys (active_connections (manager once_connected)) ∧
  (∀ cid', cid' ≠ "a" →
     PyDict.get (active_connections (manager
       (connect once_connected 1 "a" (Some "u2") (Some USER) None ["g2"]).1)) cid' =
     PyDict.get (active_connections (manager once_connected)) cid') ∧
  (∀ x u, x ∈ members (user_connections (manager
            (connect once_connected 1 "a" (Some "u2") (Some USER) None ["g2"]).1)) u ↔
          x ∈ members (user_connections (manager once_connected)) u ∨
          (x = "a" ∧ truthy (Some "u2") = Some u)) ∧
  (∀ x s, x ∈ members (scan_connections (manager
            (connect once_connected 1 "a" (Some "u2") (Some USER) None ["g2"]).1)) s ↔
          x ∈ members (scan_connections (manager once_connected)) s ∨
          (x = "a" ∧ truthy None = Some s)) ∧
  (∀ x g, x ∈ members (group_connections (manager
            (connect once_connected 1 "a" (Some "u2") (Some USER) None ["g2"]).1)) g ↔
          x ∈ members (group_connections (manager once_connected)) g ∨
          (x = "a" ∧ g ∈ ["g2"])).
Proof.
  apply (connect_overwrites_registered once_connected 1 "a" (Some "u2")
           (Some USER) None ["g2"] 0).
  - apply run_refs_bound, fresh_refs_bound.
  - vm_compute. reflexivity.
Defined.

(** ** The shape of a dispatch result *)

Section Dispatch.
Implicit Types (w : World) (n : Notification) (cid : string).

Lemma send_to_client_result w cid n : (send_to_client w cid n).2 = delivery w cid.
Proof.
  unfold send_to_client, delivery.
  destruct (PyDict.get _ cid) as [r|]; [|done].
  destruct (heap w !! r) as [c|]; [|done].
  rewrite send_json_spec. by destruct (writable (net w) c).
Qed.

Lemma send_to_client_broken w cid n :
  broken (net (send_to_client w cid n).1) = broken (net w).
Proof.
  unfold send_to_client.
  destruct (PyDict.get _ cid) as [r|]; [|done].
  destruct (heap w !! r) as [c|]; [|done].
  pose proof (send_json_broken (net w) c n) as Hb.
  by destruct (send_json (net w) c n).
Qed.

Lemma delivery_after_send w cid0 n cid :
  delivery (send_to_client w cid0 n).1 cid = delivery w cid.
Proof.
  unfold delivery, writable.
  by rewrite send_to_client_manager, send_to_client_heap, send_to_client_broken.
Qed.

(** The list the three targeted sends return: one outcome per id of the index
    entry, in the order the entry is walked, with no id attached. *)
Lemma send_to_each_result w (ids : list string) n :
  (send_to_each w ids n).2 = delivery w <$> ids.
Proof.
  unfold send_to_each.
  assert (H : ∀ acc : World * list bool,
            (∀ cid, delivery acc.1 cid = delivery w cid) →
            (foldl (fun (acc : World * list bool) cid =>
                      let '(w', result) := send_to_client acc.1 cid n in
                      (w', acc.2 ++ [result])) acc ids).2 =
            acc.2 ++ (delivery w <$> ids)).
  { induction ids as [|cid ids IH]; intros acc Hacc; simpl.
    - by rewrite app_nil_r.
    - pose proof (send_to_client_result acc.1 cid n) as Hres.
      pose proof (delivery_after_send acc.1 cid n) as Hafter.
      destruct (send_to_client acc.1 cid n) as [w' result]. simpl in *.
      rewrite IH; simpl.
      + rewrite <- app_assoc. simpl. by rewrite Hres, Hacc.
      + intros c. by rewrite Hafter. }
  by rewrite H.
Qed.

Lemma broadcast_all_dom w n :
  refs_bound w →
  dom (broadcast w n ∅ ∅).2 =
  list_to_set (PyDict.keys (active_connections (manager w))).
Proof.
  intros Hb. apply set_eq. intros cid.
  rewrite elem_of_dom, broadcast_result, elem_of_list_to_set,
    PyDictFacts.elem_of_keys.
  unfold broadcast_target.
  destruct (PyDict.get _ cid) as [r|] eqn:Hr.
  - destruct (Hb cid r Hr) as [c Hc]. rewrite Hc.
    rewrite decide_False by apply not_elem_of_empty.
    rewrite user_excluded_empty. simpl. split; eauto.
  - simpl. split; by intros [? ?].
Qed.

(** C4, as stated, fails: for a user target the result is a bare list. *)
Lemma user_dispatch_returns_list :
  (send_notification (run (fresh_world quiet) orderly_day) alert
                     "user" (Some "u3")).2 = Some (SentList [true], 1) ∧
  ¬ (∃ m k, (send_notification (run (fresh_world quiet) orderly_day) alert
                               "user" (Some "u3")).2 = Some (SentDict m, k)).
Proof.
  assert (H : (send_notification (run (fresh_world quiet) orderly_day) alert
                 "user" (Some "u3")).2 = Some (SentList [true], 1))
    by (vm_compute; reflexivity).
  split; [done|]. intros (m & k & Hm). rewrite H in Hm. discriminate Hm.
Qed.

(** C4, amended. Dispatch result shape: a broadcast returns a dictionary from
    client id to the outcome of its send, with one entry per registered
    client; a single-client target gives the one-entry dictionary of the
    target id and the outcome; a user, scan or group target returns a bare
    list of booleans, one per client id filed under the target in the order
    the entry is walked, which names no client id. *)
Theorem dispatch_result_shape w n (id : string) :
  id ≠ "" →
  (∃ m, (send_notification w n "broadcast" None).2 = Some (SentDict m, size m) ∧
        (∀ cid, m !! cid = (writable (net w) <$> broadcast_target w ∅ ∅ cid)) ∧
        (refs_bound w →
         dom m = list_to_set (PyDict.keys (active_connections (manager w))))) ∧
  (send_notification w n "client" (Some id)).2 =
    Some (SentDict {[id := delivery w id]}, if delivery w id then 1 else 0) ∧
  (send_notification w n "user" (Some id)).2 =
    Some (SentList (delivery w <$> elements (members (user_connections (manager w)) id)),
          size (members (user_connections (manager w)) id)) ∧
  (send_notification w n "scan" (Some id)).2 =
    Some (SentList (delivery w <$> elements (members (scan_connections (manager w)) id)),
          size (members (scan_connections (manager w)) id)) ∧
  (send_notification w n "group" (Some id)).2 =
    Some (SentList (delivery w <$> elements (members (group_connections (manager w)) id)),
          size (members (group_connections (manager w)) id)).
Proof.
  intros Hid.
  assert (Htr : truthy (Some id) = Some id)
    by (simpl; by rewrite decide_False).
  split; [|split; [|split; [|split]]].
  - exists (broadcast w n ∅ ∅).2. unfold send_notification.
    rewrite decide_True by done.
    destruct (broadcast w n ∅ ∅) as [w' m] eqn:Hbc. simpl.
    split; [done|]. split.
    + intros cid. by rewrite <- (broadcast_result w n ∅ ∅ cid), Hbc.
    + intros Hb. by rewrite <- (broadcast_all_dom w n Hb), Hbc.
  - unfold send_notification. rewrite decide_False by done. rewrite Htr.
    rewrite !decide_False by done. rewrite decide_True by done.
    pose proof (send_to_client_result w id n) as Hres.
    destruct (send_to_client w id n) as [w' b]. simpl in *. by rewrite Hres.
  - unfold send_notification. rewrite decide_False by done. rewrite Htr.
    rewrite decide_True by done. unfold send_to_user.
    pose proof (send_to_each_result w
                  (elements (members (user_connections (manager w)) id)) n) as Hres.
    destruct (send_to_each w _ n) as [w' l]. simpl in *. rewrite Hres.
    by rewrite length_fmap.
  - unfold send_notification. rewrite decide_False by done. rewrite Htr.
    rewrite !decide_False by done. rewrite decide_True by done.
    unfold send_to_scan.
    pose proof (send_to_each_result w
                  (elements (members (scan_connections (manager w)) id)) n) as Hres.
    destruct (send_to_each w _ n) as [w' l]. simpl in *. rewrite Hres.
    by rewrite length_fmap.
  - unfold send_notification. rewrite decide_False by done. rewrite Htr.
    rewrite decide_False by done. rewrite decide_True by done.
    unfold send_to_group.
    pose proof (send_to_each_result w
                  (elements (members (group_connections (manager w)) id)) n) as Hres.
    destruct (send_to_each w _ n) as [w' l]. simpl in *. rewrite Hres.
    by rewrite length_fmap.
Qed.

End Dispatch.

Lemma dispatch_result_shape_witness :
  (send_notification (run (fresh_world quiet) orderly_day) alert
                     "client" (Some "b")).2 =
    Some (SentDict {["b" := delivery (run (fresh_world quiet) orderly_day) "b"]},
          if delivery (run (fresh_world quiet) orderly_day) "b" then 1 else 0) ∧
  (send_notification (run (fresh_world quiet) orderly_day) alert
                     "user" (Some "b")).2 =
    Some (SentList (delivery (run (fresh_world quiet) orderly_day) <$>
                    elements (members (user_connections
                       (manager (run (fresh_world quiet) orderly_day))) "b")),
          size (members (user_connections
                  (manager (run (fresh_world quiet) orderly_day))) "b")).
Proof.
  destruct (dispatch_result_shape (run (fresh_world quiet) orderly_day) alert "b")
    as (_ & Hclient & Huser & _); [discriminate|].
  split; [exact Hclient | exact Huser].
Defined.

(** ** Group updates and the primary map *)

Section GroupUpdateClaims.
Implicit Types (w : World) (s : Session).





End GroupUpdateClaims.

(** ** A send that fails *)

Section SendFailure.





End SendFailure.

(** ** A frame that is not JSON *)

Section Garbled.

(** What [websocket_endpoint] does with such a frame from the session of a
    registered client whose socket can be written: one [error] frame goes to
    that client, the store and the registry stay as they were, and a [ping]
    that follows is answered with a [pong]. *)
Lemma websocket_endpoint_answers_garbled (DEBUG : bool) (now now' : string)
    (w : World) (s : Session) (c : WebSocketClient) :
  PyDict.get (active_connections (manager w)) (session_client_id s)
    = Some (session_client s) →
  heap w !! session_client s = Some c →
  writable (net w) c = true →
  heap (websocket_endpoint_turn DEBUG now w s FrameGarbled) = heap w ∧
  manager (websocket_endpoint_turn DEBUG now w s FrameGarbled) = manager w ∧
  outbox (net (websocket_endpoint_turn DEBUG now w s FrameGarbled)) =
    outbox (net w) ++ [(websocket c, invalid_json_error)] ∧
  outbox (net (websocket_endpoint_turn DEBUG now'
                 (websocket_endpoint_turn DEBUG now w s FrameGarbled) s FramePing)) =
    outbox (net w) ++ [(websocket c, invalid_json_error); (websocket c, pong now')].
Proof.
  intros Hs Hc Hw.
  unfold websocket_endpoint_turn, websocket_endpoint_body. simpl.
  unfold send_to_client at 1 2 3 5. rewrite Hs, Hc, send_json_spec, Hw. simpl.
  repeat split.
  unfold send_to_client. simpl. rewrite Hs, Hc, send_json_spec.
  unfold writable in *. simpl. rewrite Hw. simpl.
  by rewrite <- app_assoc.
Qed.

(** C9, on [WebSocketManager.handle_client]: a frame that is not JSON is
    logged and nothing is written to the client, where [websocket_endpoint]
    writes one [error] frame; the client stays registered and a [ping] that
    follows is answered with a [pong]. *)
Theorem handle_client_silent_on_garbled (now now' : string) (w : World)
    (s : Session) (c : WebSocketClient) :
  PyDict.get (active_connections (manager w)) (session_client_id s)
    = Some (session_client s) →
  heap w !! session_client s = Some c →
  writable (net w) c = true →
  handle_client_turn now w s FrameGarbled = w ∧
  outbox (net (handle_client_turn now w s FrameGarbled)) = outbox (net w) ∧
  outbox (net (websocket_endpoint_turn false now w s FrameGarbled)) =
    outbox (net w) ++ [(websocket c, invalid_json_error)] ∧
  outbox (net (handle_client_turn now'
                 (handle_client_turn now w s FrameGarbled) s FramePing)) =
    outbox (net w) ++ [(websocket c, pong now')].
Proof.
  intros Hs Hc Hw.
  destruct (websocket_endpoint_answers_garbled false now now' w s c Hs Hc Hw)
    as (_ & _ & Hout & _).
  split; [done|]. split; [done|]. split; [exact Hout|].
  simpl. rewrite Hc, send_json_spec, Hw. done.
Qed.

Lemma handle_client_silent_on_garbled_witness :
  handle_client_turn "12:00" abc_world session_C FrameGarbled = abc_world ∧
  outbox (net (handle_client_turn "12:00" abc_world session_C FrameGarbled)) =
    outbox (net abc_world) ∧
  outbox (net (websocket_endpoint_turn false "12:00" abc_world session_C FrameGarbled)) =
    outbox (net abc_world) ++ [(2, invalid_json_error)] ∧
  outbox (net (handle_client_turn "12:01"
                 (handle_client_turn "12:00" abc_world session_C FrameGarbled)
                 session_C FramePing)) =
    outbox (net abc_world) ++ [(2, pong "12:01")].
Proof.
  apply (handle_client_silent_on_garbled "12:00" "12:01" abc_world session_C
           (public_client 2 "C")); vm_compute; reflexivity.
Defined.

End Garbled.

(** * Further properties of the code *)

(** ** The enumeration of notification types *)

(** X1. The values of [NotificationType] are pairwise distinct: looking a
    member up by its value gives the member back, and a string that is found
    is the value of the member found. *)
Theorem NotificationType_value_roundtrip :
  (∀ t, NotificationType_of_value (NotificationType_value t) = Some t) ∧
  (∀ v t, NotificationType_of_value v = Some t → NotificationType_value t = v).
Proof.
  split.
  - intros t. by destruct t.
  - intros v t Hfind. unfold NotificationType_of_value in Hfind.
    apply List.find_some in Hfind as [_ Heq].
    by apply bool_decide_eq_true_1 in Heq.
Qed.

(** ** Targeted sends *)

Section TargetedSends.
Implicit Types (w : World) (n : Notification) (cid : string).

Lemma registered_ext w w' cid (c : WebSocketClient) :
  heap w' = heap w → manager w' = manager w →
  registered w' cid c ↔ registered w cid c.
Proof. unfold registered. by intros -> ->. Qed.

Lemma coherent_ext w w' :
  heap w' = heap w → manager w' = manager w → coherent w → coherent w'.
Proof.
  intros Hh Hm [Hk Hg Hu Hs]. split.
  - intros cid r. rewrite Hh, Hm. apply Hk.
  - intros cid g. rewrite Hm, (Hg cid g).
    split; intros (c & Hc & ?); exists c; (split; [|done]);
      by apply (registered_ext w w').
  - intros cid u. rewrite Hm. intros Hin.
    destruct (Hu cid u Hin) as (c & Hc & ?). exists c. split; [|done].
    by apply (registered_ext w w').
  - intros cid u. rewrite Hm. intros Hin.
    destruct (Hs cid u Hin) as (c & Hc & ?). exists c. split; [|done].
    by apply (registered_ext w w').
Qed.

Lemma send_to_client_outbox w cid n :
  outbox (net (send_to_client w cid n).1) = outbox (net w) ++ frames_for w [cid] n.
Proof.
  unfold send_to_client, frames_for. simpl.
  destruct (PyDict.get _ cid) as [r|]; [|by rewrite app_nil_r].
  destruct (heap w !! r) as [c|]; [|by rewrite app_nil_r].
  rewrite send_json_spec. destruct (writable (net w) c); simpl; [done|].
  by rewrite app_nil_r.
Qed.

Lemma frames_for_ext w w' (ids : list string) n :
  heap w' = heap w → manager w' = manager w →
  broken (net w') = broken (net w) →
  frames_for w' ids n = frames_for w ids n.
Proof. unfold frames_for, writable. by intros -> -> ->. Qed.

Lemma frames_for_cons w cid (ids : list string) n :
  frames_for w (cid :: ids) n = frames_for w [cid] n ++ frames_for w ids n.
Proof.
  unfold frames_for. simpl.
  destruct (PyDict.get _ cid) as [r|]; [|done].
  destruct (heap w !! r) as [c|]; [|done].
  by destruct (writable (net w) c).
Qed.

(** The loop of the three targeted sends touches nothing but the transport,
    where it appends the frames of the sends that succeed. *)
Lemma send_to_each_frames w (ids : list string) n :
  heap (send_to_each w ids n).1 = heap w ∧
  manager (send_to_each w ids n).1 = manager w ∧
  broken (net (send_to_each w ids n).1) = broken (net w) ∧
  outbox (net (send_to_each w ids n).1) = outbox (net w) ++ frames_for w ids n.
Proof.
  unfold send_to_each.
  assert (H : ∀ acc : World * list bool,
    let res := foldl (fun (acc : World * list bool) cid =>
                        let '(w', result) := send_to_client acc.1 cid n in
                        (w', acc.2 ++ [result])) acc ids in
    heap res.1 = heap acc.1 ∧ manager res.1 = manager acc.1 ∧
    broken (net res.1) = broken (net acc.1) ∧
    outbox (net res.1) = outbox (net acc.1) ++ frames_for acc.1 ids n).
  { induction ids as [|cid ids IH]; intros acc; cbn [foldl].
    - unfold frames_for. simpl. by rewrite app_nil_r.
    - pose proof (send_to_client_heap acc.1 cid n) as Hh.
      pose proof (send_to_client_manager acc.1 cid n) as Hm.
      pose proof (send_to_client_broken acc.1 cid n) as Hb.
      pose proof (send_to_client_outbox acc.1 cid n) as Ho.
      destruct (send_to_client acc.1 cid n) as [w' result].
      cbn [fst snd] in *.
      destruct (IH (w', acc.2 ++ [result])) as (IH1 & IH2 & IH3 & IH4).
      cbn [fst snd] in *. rewrite IH1, IH2, IH3, IH4, Ho, Hh, Hm, Hb.
      repeat split; try done.
      rewrite (frames_for_ext acc.1 w') by done.
      rewrite (frames_for_cons acc.1 cid ids). by rewrite app_assoc. }
  apply (H (w, [])).
Qed.

Lemma elem_of_frames_for w (ids : list string) n (x : nat * Notification) :
  x ∈ frames_for w ids n ↔
  ∃ cid c, cid ∈ ids ∧ registered w cid c ∧ writable (net w) c = true ∧
           x = (websocket c, n).
Proof.
  unfold frames_for. rewrite list_elem_of_omap. split.
  - intros (cid & Hin & Hx). exists cid.
    destruct (PyDict.get _ cid) as [r|] eqn:Hr; [|done].
    destruct (heap w !! r) as [c|] eqn:Hc; [|done].
    destruct (writable (net w) c) eqn:Hw; [|done].
    injection Hx as <-. exists c. repeat split; try done. by exists r.
  - intros (cid & c & Hin & (r & Hr & Hc) & Hw & ->).
    exists cid. split; [done|]. by rewrite Hr, Hc, Hw.
Qed.

(** X2. [send_to_group] in a coherent registry writes the frame to exactly
    the registered clients that hold the group and whose socket takes the
    write; it changes neither the store nor the registry, and returns one
    boolean per id filed under the group. *)
Theorem send_to_group_reaches_holders w (g : string) n :
  coherent w →
  heap (send_to_group w g n).1 = heap w ∧
  manager (send_to_group w g n).1 = manager w ∧
  length (send_to_group w g n).2 =
    size (members (group_connections (manager w)) g) ∧
  (∀ x, x ∈ outbox (net (send_to_group w g n).1) ↔
        x ∈ outbox (net w) ∨
        ∃ cid c, registered w cid c ∧ g ∈ groups c ∧
                 writable (net w) c = true ∧ x = (websocket c, n)).
Proof.
  intros [Hk Hg _ _]. unfold send_to_group.
  destruct (send_to_each_frames w
              (elements (members (group_connections (manager w)) g)) n)
    as (Hh & Hm & _ & Ho).
  split; [done|]. split; [done|]. split.
  - by rewrite send_to_each_result, length_fmap.
  - intros x. rewrite Ho, elem_of_app, elem_of_frames_for. split.
    + intros [?|(cid & c & Hin & Hc & Hw & ->)]; [by left|].
      right. exists cid, c. split; [done|]. split; [|done].
      apply elem_of_elements, (Hg cid g) in Hin as (c' & Hc' & _ & Hin).
      by rewrite (registered_functional w cid c c' Hc Hc').
    + intros [?|(cid & c & Hc & Hin & Hw & ->)]; [by left|].
      right. exists cid, c. split; [|done].
      apply elem_of_elements, (Hg cid g). exists c. split; [done|].
      split; [by eapply keyed_registered | done].
Qed.

(** X3. [send_to_user] (and [send_to_scan]) in a coherent registry never
    writes to a client of another user (scan): every frame it adds goes to
    the socket of a registered client whose user id (scan id) is the
    target. *)
Theorem send_to_user_stays_with_user w (u : string) n :
  coherent w →
  (∀ x, x ∈ outbox (net (send_to_user w u n).1) →
        x ∈ outbox (net w) ∨
        ∃ cid c, registered w cid c ∧ user_id c = Some u ∧
                 x = (websocket c, n)) ∧
  (∀ x, x ∈ outbox (net (send_to_scan w u n).1) →
        x ∈ outbox (net w) ∨
        ∃ cid c, registered w cid c ∧ scan_id c = Some u ∧
                 x = (websocket c, n)).
Proof.
  intros [Hk _ Hu Hs]. split; intros x.
  - unfold send_to_user.
    destruct (send_to_each_frames w
                (elements (members (user_connections (manager w)) u)) n)
      as (_ & _ & _ & Ho).
    rewrite Ho, elem_of_app, elem_of_frames_for.
    intros [?|(cid & c & Hin & Hc & Hw & ->)]; [by left|].
    right. exists cid, c. split; [done|]. split; [|done].
    apply elem_of_elements, Hu in Hin as (c' & Hc' & Htr).
    rewrite (registered_functional w cid c c' Hc Hc').
    by apply truthy_Some in Htr as [? _].
  - unfold send_to_scan.
    destruct (send_to_each_frames w
                (elements (members (scan_connections (manager w)) u)) n)
      as (_ & _ & _ & Ho).
    rewrite Ho, elem_of_app, elem_of_frames_for.
    intros [?|(cid & c & Hin & Hc & Hw & ->)]; [by left|].
    right. exists cid, c. split; [done|]. split; [|done].
    apply elem_of_elements, Hs in Hin as (c' & Hc' & Htr).
    rewrite (registered_functional w cid c c' Hc Hc').
    by apply truthy_Some in Htr as [? _].
Qed.

End TargetedSends.

(** ** What [connect] and [disconnect] announce and leave behind *)

Section Announcements.
Implicit Types (w : World) (cid : string).

Lemma orderly_day_coherent : coherent (run (fresh_world quiet) orderly_day).
Proof. apply run_coherent; [by vm_compute | apply fresh_coherent]. Qed.

Lemma run_no_empty w (ops : list Op) :
  no_empty_entries (manager w) → no_empty_entries (manager (run w ops)).
Proof.
  revert w. induction ops as [|o ops IH]; intros w Hw; [done|].
  simpl. apply IH. by apply step_no_empty.
Qed.

Lemma fresh_no_empty (t : Transport) : no_empty_entries (manager (fresh_world t)).
Proof. repeat split; intros k s; simpl; by rewrite lookup_empty. Qed.

Lemma connect_steps w (ws : nat) cid (uid : option string)
    (ctype : option ConnectionType) (sid : option string) (gs : list string) :
  ∃ w2,
    heap w2 = heap (connect w ws cid uid ctype sid gs).1 ∧
    manager w2 = manager (connect w ws cid uid ctype sid gs).1 ∧
    broken (net w2) = broken (net w) ∧
    outbox (net w2) =
      outbox (net w) ++
      (if decide (ws ∈ broken (net w)) then [] else [(ws, connected_frame cid)]) ∧
    (connect w ws cid uid ctype sid gs).1 =
      match truthy uid with
      | Some u => (broadcast w2 (user_joined_frame u cid) {[cid]} ∅).1
      | None => w2
      end.
Proof.
  set (client := {| websocket := ws; client_id := cid; user_id := uid;
                    connection_type := ctype; scan_id := sid;
                    groups := list_to_set gs |}).
  exists (with_net
            {| heap := heap w ++ [client];
               manager := register (manager w) (length (heap w)) client;
               net := net w |}
            (send_json (net w) client (connected_frame cid)).1).
  rewrite connect_heap, connect_manager.
  split; [done|]. split; [done|]. split; [|split].
  - cbn [net with_net]. apply send_json_broken.
  - cbn [net with_net]. rewrite send_json_spec. unfold writable.
    cbn [websocket].
    destruct (decide (ws ∈ broken (net w))) as [Hin|Hin].
    + rewrite bool_decide_eq_false_2 by (intros Hn; exact (Hn Hin)).
      cbn [fst]. by rewrite app_nil_r.
    + by rewrite bool_decide_eq_true_2.
  - unfold connect. by destruct (truthy uid).
Qed.

(** X4. [connect] of a user under an id that is not registered, in a
    coherent registry: the frames it writes are the [connected] frame to the
    new socket (when that write succeeds) and one [user_joined] frame to
    each client that was registered before and whose socket takes the
    write; the new id is no target of [user_joined]. A client without a user
    id (or with the empty one) is announced to nobody. *)
Theorem connect_announces_to_others w (ws : nat) cid (uid : option string)
    (ctype : option ConnectionType) (sid : option string) (gs : list string) :
  coherent w →
  PyDict.get (active_connections (manager w)) cid = None →
  (∀ u, truthy uid = Some u →
     ∀ x, x ∈ outbox (net (connect w ws cid uid ctype sid gs).1) ↔
          x ∈ outbox (net w) ∨
          ((ws ∉ broken (net w)) ∧ x = (ws, connected_frame cid)) ∨
          ∃ cid' c, registered w cid' c ∧ cid' ≠ cid ∧
                    writable (net w) c = true ∧
                    x = (websocket c, user_joined_frame u cid)) ∧
  (truthy uid = None →
   outbox (net (connect w ws cid uid ctype sid gs).1) =
   outbox (net w) ++
   (if decide (ws ∈ broken (net w)) then [] else [(ws, connected_frame cid)])).
Proof.
  intros Hcoh Hnew.
  pose proof (coherent_keyed w Hcoh) as Hk.
  destruct (connect_steps w ws cid uid ctype sid gs)
    as (w2 & Hh & Hm & Hbr & Hout & Hconn).
  assert (Hregs : ∀ cid' c, cid' ≠ cid →
            registered w2 cid' c ↔ registered w cid' c).
  { intros cid' c Hne. rewrite (registered_ext _ w2 cid' c Hh Hm).
    rewrite (registered_connect w ws cid uid ctype sid gs cid' c Hk Hnew).
    naive_solver. }
  assert (Hw : ∀ c, writable (net w2) c = writable (net w) c)
    by (intros c; unfold writable; by rewrite Hbr).
  split.
  - intros u Hu x. rewrite Hconn, Hu, broadcast_outbox, Hout, elem_of_app.
    split.
    + intros [[?|Hx]|(cid' & c & Ht & Hwc & ->)].
      * by left.
      * right; left. destruct (decide (ws ∈ broken (net w))) as [?|Hin].
        -- by apply elem_of_nil in Hx.
        -- by apply list_elem_of_singleton in Hx.
      * apply broadcast_target_excluding in Ht as [Hc Hne].
        right; right. exists cid', c. split; [by apply Hregs|].
        split; [done|]. split; [by rewrite <- Hw | done].
    + intros [?|[[Hin ->]|(cid' & c & Hc & Hne & Hwc & ->)]].
      * by left; left.
      * left; right. rewrite decide_False by done. by left.
      * right. exists cid', c. split.
        -- apply broadcast_target_excluding. split; [by apply Hregs | done].
        -- split; [by rewrite Hw | done].
  - intros Hu. by rewrite Hconn, Hu.
Qed.

Lemma connect_announces_to_others_witness :
  (∀ u, truthy (Some "u9") = Some u →
     ∀ x, x ∈ outbox (net (connect (run (fresh_world quiet) orderly_day) 7 "z"
                             (Some "u9") (Some USER) None ["public"]).1) ↔
          x ∈ outbox (net (run (fresh_world quiet) orderly_day)) ∨
          ((7 ∉ broken (net (run (fresh_world quiet) orderly_day))) ∧
           x = (7, connected_frame "z")) ∨
          ∃ cid' c, registered (run (fresh_world quiet) orderly_day) cid' c ∧
                    cid' ≠ "z" ∧
                    writable (net (run (fresh_world quiet) orderly_day)) c = true ∧
                    x = (websocket c, user_joined_frame u "z")) ∧
  (truthy (Some "u9") = None →
   outbox (net (connect (run (fresh_world quiet) orderly_day) 7 "z"
                  (Some "u9") (Some USER) None ["public"]).1) =
   outbox (net (run (fresh_world quiet) orderly_day)) ++
   (if decide (7 ∈ broken (net (run (fresh_world quiet) orderly_day)))
    then [] else [(7, connected_frame "z")])).
Proof.
  apply (connect_announces_to_others (run (fresh_world quiet) orderly_day) 7 "z"
           (Some "u9") (Some USER) None ["public"]).
  - apply orderly_day_coherent.
  - vm_compute. reflexivity.
Defined.

(** X5. No dangling reference: after [disconnect] in a coherent registry the
    id is no key of the primary map and is listed under no user, scan or
    group; the entries of every other id are as before, and the socket of
    the client has been closed. *)
Theorem disconnect_leaves_no_reference w cid (c : WebSocketClient) :
  coherent w →
  registered w cid c →
  PyDict.get (active_connections (manager (disconnect w cid))) cid = None ∧
  (∀ k, cid ∉ members (user_connections (manager (disconnect w cid))) k) ∧
  (∀ k, cid ∉ members (scan_connections (manager (disconnect w cid))) k) ∧
  (∀ k, cid ∉ members (group_connections (manager (disconnect w cid))) k) ∧
  (∀ x k, x ≠ cid →
     (x ∈ members (user_connections (manager (disconnect w cid))) k ↔
      x ∈ members (user_connections (manager w)) k) ∧
     (x ∈ members (scan_connections (manager (disconnect w cid))) k ↔
      x ∈ members (scan_connections (manager w)) k) ∧
     (x ∈ members (group_connections (manager (disconnect w cid))) k ↔
      x ∈ members (group_connections (manager w)) k)) ∧
  websocket c ∈ closed (net (disconnect w cid)).
Proof.
  intros Hcoh (r & Hr & Hc).
  pose proof (disconnect_coherent w cid Hcoh) as [Hk' Hg' Hu' Hs'].
  assert (Hgone : PyDict.get (active_connections (manager (disconnect w cid))) cid
                  = None).
  { rewrite (disconnect_manager w cid r c) by done. simpl.
    apply PyDictFacts.get_pop_eq. }
  assert (Hnot : ∀ c', ¬ registered (disconnect w cid) cid c').
  { intros c' (r' & Hr' & _). congruence. }
  split; [done|]. split; [|split; [|split; [|split]]].
  - intros k Hin. destruct (Hu' cid k Hin) as (c' & Hc' & _). by eapply Hnot.
  - intros k Hin. destruct (Hs' cid k Hin) as (c' & Hc' & _). by eapply Hnot.
  - intros k Hin. apply (Hg' cid k) in Hin as (c' & Hc' & _). by eapply Hnot.
  - intros x k Hne. rewrite (disconnect_manager w cid r c) by done. simpl.
    rewrite !elem_members_discard_opt, elem_members_discard_all. naive_solver.
  - unfold disconnect. rewrite Hr, Hc.
    destruct (truthy (user_id c)) as [u|].
    + assert (Hcl : ∀ w0 n0 (e1 e2 : gset string),
                closed (net (broadcast w0 n0 e1 e2).1) = closed (net w0)).
      { intros w0 n0 e1 e2. unfold broadcast.
        pose proof (broadcast_walk w0 n0 e1 e2 (net w0) ∅
                      (PyDict.keys (active_connections (manager w0)))) as Hwalk.
        destruct (foldl _ _ _) as [t res]. by destruct Hwalk as [_ Hcl _ _]. }
      rewrite Hcl. simpl. apply elem_of_app. right. by left.
    + simpl. apply elem_of_app. right. by left.
Qed.

Lemma disconnect_leaves_no_reference_witness :
  PyDict.get (active_connections
                (manager (disconnect (run (fresh_world quiet) orderly_day) "b"))) "b"
    = None ∧
  (∀ k, "b" ∉ members (group_connections
                  (manager (disconnect (run (fresh_world quiet) orderly_day) "b"))) k).
Proof.
  destruct (disconnect_leaves_no_reference (run (fresh_world quiet) orderly_day) "b"
              (with_groups
                 {| websocket := 1; client_id := "b"; user_id := None;
                    connection_type := Some SCAN; scan_id := Some "scan-7";
                    groups := ∅ |} {["alerts"]}))
    as (H1 & _ & _ & H2 & _).
  - apply orderly_day_coherent.
  - exists 1. split; vm_compute; reflexivity.
  - split; [exact H1 | exact H2].
Defined.

End Announcements.

Lemma send_to_group_reaches_holders_witness :
  manager (send_to_group (run (fresh_world quiet) orderly_day) "public" alert).1 =
    manager (run (fresh_world quiet) orderly_day) ∧
  length (send_to_group (run (fresh_world quiet) orderly_day) "public" alert).2 =
    size (members (group_connections
                     (manager (run (fresh_world quiet) orderly_day))) "public").
Proof.
  destruct (send_to_group_reaches_holders
              (run (fresh_world quiet) orderly_day) "public" alert)
    as (_ & Hm & Hlen & _).
  - apply orderly_day_coherent.
  - split; [exact Hm | exact Hlen].
Defined.

Lemma send_to_user_stays_with_user_witness :
  (∀ x, x ∈ outbox (net (send_to_user (run (fresh_world quiet) orderly_day)
                           "u3" alert).1) →
        x ∈ outbox (net (run (fresh_world quiet) orderly_day)) ∨
        ∃ cid c, registered (run (fresh_world quiet) orderly_day) cid c ∧
                 user_id c = Some "u3" ∧ x = (websocket c, alert)) ∧
  (∀ x, x ∈ outbox (net (send_to_scan (run (fresh_world quiet) orderly_day)
                           "u3" alert).1) →
        x ∈ outbox (net (run (fresh_world quiet) orderly_day)) ∨
        ∃ cid c, registered (run (fresh_world quiet) orderly_day) cid c ∧
                 scan_id c = Some "u3" ∧ x = (websocket c, alert)).
Proof.
  apply (send_to_user_stays_with_user
           (run (fresh_world quiet) orderly_day) "u3" alert).
  apply orderly_day_coherent.
Defined.

(** ** The receive loop *)

Section ReceiveLoop.
Implicit Types (w : World) (s : Session) (f : Frame).

Lemma websocket_endpoint_turn_state (DEBUG : bool) (now : string) w s f :
  heap (websocket_endpoint_turn DEBUG now w s f) =
    match f with
    | FrameSubscribe (Some gs) => heap (subscribe w s gs)
    | FrameUnsubscribe (Some gs) => heap (unsubscribe w s gs)
    | _ => heap w
    end ∧
  manager (websocket_endpoint_turn DEBUG now w s f) =
    match f with
    | FrameSubscribe (Some gs) => manager (subscribe w s gs)
    | FrameUnsubscribe (Some gs) => manager (unsubscribe w s gs)
    | _ => manager w
    end.
Proof.
  unfold websocket_endpoint_turn, websocket_endpoint_body, reply.
  destruct f as [| |[gs|]|[gs|]|payload|]; simpl;
    try destruct DEBUG; simpl;
    rewrite ?send_to_client_heap, ?send_to_client_manager; done.
Qed.

(** X6. Group updates are idempotent: a second subscribe (unsubscribe) with
    the same groups changes nothing, in any state. *)
Theorem group_update_idempotent w s (gs : list string) :
  subscribe (subscribe w s gs) s gs = subscribe w s gs ∧
  unsubscribe (unsubscribe w s gs) s gs = unsubscribe w s gs.
Proof.
  assert (Hsub : ∀ cid (l : list string) (held : gset string)
                   (index : gmap string (gset string)),
            (∀ g, g ∈ l → g ∈ held) →
            foldl (subscribe_group cid) (held, index) l = (held, index)).
  { intros cid l held index. induction l as [|g l IH]; intros Hall; [done|].
    cbn [foldl]. unfold subscribe_group at 2. cbn [fst snd].
    rewrite decide_True by (apply Hall; by left).
    apply IH. intros g' Hg'. apply Hall. by right. }
  assert (Hunsub : ∀ cid (l : list string) (held : gset string)
                     (index : gmap string (gset string)),
            (∀ g, g ∈ l → g ∉ held) →
            foldl (unsubscribe_group cid) (held, index) l = (held, index)).
  { intros cid l held index. induction l as [|g l IH]; intros Hall; [done|].
    cbn [foldl]. unfold unsubscribe_group at 2. cbn [fst snd].
    rewrite decide_False by (apply Hall; by left).
    apply IH. intros g' Hg'. apply Hall. by right. }
  destruct (heap w !! session_client s) as [c|] eqn:Hc.
  - assert (Hlt : session_client s < length (heap w)) by by eapply lookup_lt_Some.
    split.
    + destruct (update_groups_heap subscribe_group w s gs c Hc) as [Hh Hg].
      destruct (subscribe_fold (session_client_id s) gs (groups c)
                  (group_connections (manager w))) as [Hheld _].
      set (w1 := subscribe w s gs) in *.
      assert (Hc1 : heap w1 !! session_client s =
                    Some (with_groups c (groups c ∪ list_to_set gs))).
      { unfold w1, subscribe. rewrite Hh, list_lookup_insert_eq by done.
        by rewrite Hheld. }
      unfold subscribe at 1, update_groups. rewrite Hc1. cbn [groups with_groups].
      rewrite Hsub by set_solver.
      rewrite list_insert_id by done. by destruct w1 as [h [a u sc g] t].
    + destruct (update_groups_heap unsubscribe_group w s gs c Hc) as [Hh Hg].
      destruct (unsubscribe_fold (session_client_id s) gs (groups c)
                  (group_connections (manager w))) as [Hheld _].
      set (w1 := unsubscribe w s gs) in *.
      assert (Hc1 : heap w1 !! session_client s =
                    Some (with_groups c (groups c ∖ list_to_set gs))).
      { unfold w1, unsubscribe. rewrite Hh, list_lookup_insert_eq by done.
        by rewrite Hheld. }
      unfold unsubscribe at 1, update_groups. rewrite Hc1. cbn [groups with_groups].
      rewrite Hunsub by set_solver.
      rewrite list_insert_id by done. by destruct w1 as [h [a u sc g] t].
  - unfold subscribe, unsubscribe.
    by rewrite !(update_groups_missing _ w s gs Hc).
Qed.

Lemma send_to_client_closed w (cid : string) (n : Notification) :
  closed (net (send_to_client w cid n).1) = closed (net w).
Proof.
  unfold send_to_client.
  destruct (PyDict.get _ cid) as [r|]; [|done].
  destruct (heap w !! r) as [c|]; [|done].
  pose proof (send_json_closed (net w) c n) as Hc.
  by destruct (send_json (net w) c n).
Qed.

Lemma websocket_endpoint_turn_closed (DEBUG : bool) (now : string) w s f :
  closed (net (websocket_endpoint_turn DEBUG now w s f)) = closed (net w).
Proof.
  unfold websocket_endpoint_turn, websocket_endpoint_body, reply.
  destruct f as [| |[gs|]|[gs|]|payload|]; simpl;
    try destruct DEBUG; simpl;
    rewrite ?send_to_client_closed; try done;
    unfold subscribe, unsubscribe; by rewrite update_groups_net.
Qed.

(** A group update changes the groups of the client of the session and the
    group index, and nothing else of the store or the registry. *)
Lemma update_groups_frame turn w s (gs : list string) :
  active_connections (manager (update_groups turn w s gs)) =
    active_connections (manager w) ∧
  user_connections (manager (update_groups turn w s gs)) =
    user_connections (manager w) ∧
  scan_connections (manager (update_groups turn w s gs)) =
    scan_connections (manager w) ∧
  length (heap (update_groups turn w s gs)) = length (heap w) ∧
  (∀ r, r ≠ session_client s →
        heap (update_groups turn w s gs) !! r = heap w !! r) ∧
  (∀ c, heap w !! session_client s = Some c →
        ∃ held, heap (update_groups turn w s gs) !! session_client s =
                Some (with_groups c held)).
Proof.
  rewrite update_groups_active, update_groups_user, update_groups_scan,
    update_groups_length.
  repeat split.
  - intros r Hne. destruct (heap w !! session_client s) as [c|] eqn:Hc.
    + destruct (update_groups_heap turn w s gs c Hc) as [-> _].
      by rewrite list_lookup_insert_ne.
    + by rewrite update_groups_missing.
  - intros c Hc. destruct (update_groups_heap turn w s gs c Hc) as [-> _].
    eexists. rewrite list_lookup_insert_eq; [done|]. by eapply lookup_lt_Some.
Qed.

(** X7. Whatever frame arrives, a turn of the receive loop of
    [websocket_endpoint] leaves the primary map and the user and scan
    indexes as they were, closes no socket, creates no client object, and
    changes no client object other than the one of the session, of which it
    changes the groups only. *)
Theorem receive_turn_touches_groups_only (DEBUG : bool) (now : string) w s f :
  active_connections (manager (websocket_endpoint_turn DEBUG now w s f)) =
    active_connections (manager w) ∧
  user_connections (manager (websocket_endpoint_turn DEBUG now w s f)) =
    user_connections (manager w) ∧
  scan_connections (manager (websocket_endpoint_turn DEBUG now w s f)) =
    scan_connections (manager w) ∧
  closed (net (websocket_endpoint_turn DEBUG now w s f)) = closed (net w) ∧
  length (heap (websocket_endpoint_turn DEBUG now w s f)) = length (heap w) ∧
  (∀ r, r ≠ session_client s →
        heap (websocket_endpoint_turn DEBUG now w s f) !! r = heap w !! r) ∧
  (∀ c, heap w !! session_client s = Some c →
        ∃ held, heap (websocket_endpoint_turn DEBUG now w s f) !! session_client s =
                Some (with_groups c held)).
Proof.
  assert (Hsame : ∀ c, with_groups c (groups c) = c) by (by intros []).
  assert (Hrest :
    active_connections (manager (websocket_endpoint_turn DEBUG now w s f)) =
      active_connections (manager w) ∧
    user_connections (manager (websocket_endpoint_turn DEBUG now w s f)) =
      user_connections (manager w) ∧
    scan_connections (manager (websocket_endpoint_turn DEBUG now w s f)) =
      scan_connections (manager w) ∧
    length (heap (websocket_endpoint_turn DEBUG now w s f)) = length (heap w) ∧
    (∀ r, r ≠ session_client s →
          heap (websocket_endpoint_turn DEBUG now w s f) !! r = heap w !! r) ∧
    (∀ c, heap w !! session_client s = Some c →
          ∃ held, heap (websocket_endpoint_turn DEBUG now w s f)
                    !! session_client s = Some (with_groups c held))).
  { destruct (websocket_endpoint_turn_state DEBUG now w s f) as [Hh Hm].
    rewrite Hh, Hm.
    destruct f as [| |[gs|]|[gs|]|payload|];
      try apply update_groups_frame;
      (repeat split; intros c Hc; exists (groups c); by rewrite Hsame). }
  destruct Hrest as (Ha & Hu & Hs & Hlen & Hother & Hself).
  repeat split; try done. apply websocket_endpoint_turn_closed.
Qed.

(** X8. The answer to a subscribe or unsubscribe frame that carries a list:
    the groups are updated, and since ["subscription_updated"] is no member
    of [NotificationType] the notification cannot be built; what the client
    registered under the id of the session receives is the [error] frame
    "Internal server error", and nothing else is written. *)
Theorem group_update_answered_with_error (DEBUG : bool) (now : string) w s
    (gs : list string) (c : WebSocketClient) :
  PyDict.get (active_connections (manager w)) (session_client_id s)
    = Some (session_client s) →
  heap w !! session_client s = Some c →
  writable (net w) c = true →
  manager (websocket_endpoint_turn DEBUG now w s (FrameSubscribe (Some gs))) =
    manager (subscribe w s gs) ∧
  outbox (net (websocket_endpoint_turn DEBUG now w s (FrameSubscribe (Some gs)))) =
    outbox (net w) ++ [(websocket c, internal_server_error)] ∧
  manager (websocket_endpoint_turn DEBUG now w s (FrameUnsubscribe (Some gs))) =
    manager (unsubscribe w s gs) ∧
  outbox (net (websocket_endpoint_turn DEBUG now w s (FrameUnsubscribe (Some gs)))) =
    outbox (net w) ++ [(websocket c, internal_server_error)].
Proof.
  intros Hs Hc Hw.
  assert (Hturn : ∀ turn,
    outbox (net (send_to_client (update_groups turn w s gs) (session_client_id s)
                   internal_server_error).1) =
    outbox (net w) ++ [(websocket c, internal_server_error)]).
  { intros turn. rewrite send_to_client_outbox, update_groups_net.
    f_equal. unfold frames_for. cbn [omap list_omap].
    rewrite update_groups_active, Hs.
    destruct (update_groups_heap turn w s gs c Hc) as [-> _].
    rewrite list_lookup_insert_eq by by eapply lookup_lt_Some.
    unfold writable in *. rewrite update_groups_net. cbn [websocket with_groups].
    by rewrite Hw. }
  destruct (websocket_endpoint_turn_state DEBUG now w s (FrameSubscribe (Some gs)))
    as [_ Hm1].
  destruct (websocket_endpoint_turn_state DEBUG now w s (FrameUnsubscribe (Some gs)))
    as [_ Hm2].
  split; [exact Hm1|]. split; [apply (Hturn subscribe_group)|].
  split; [exact Hm2|]. apply (Hturn unsubscribe_group).
Qed.

Lemma group_update_answered_with_error_witness :
  manager (websocket_endpoint_turn false "12:00" abc_world session_C
             (FrameSubscribe (Some ["alerts"]))) =
    manager (subscribe abc_world session_C ["alerts"]) ∧
  outbox (net (websocket_endpoint_turn false "12:00" abc_world session_C
                 (FrameSubscribe (Some ["alerts"])))) =
    outbox (net abc_world) ++ [(websocket (public_client 2 "C"), internal_server_error)].
Proof.
  destruct (group_update_answered_with_error false "12:00" abc_world session_C
              ["alerts"] (public_client 2 "C")) as (H1 & H2 & _);
    [vm_compute; reflexivity ..|].
  split; [exact H1 | exact H2].
Defined.

End ReceiveLoop.

(** ** A whole session *)

Section Sessions.
Implicit Types (w : World) (cid : string).

Lemma pop_set_absent {V : Type} (d : list (string * V)) (k : string) (v : V) :
  PyDict.get d k = None → PyDict.pop (PyDict.set d k v) k = d.
Proof.
  induction d as [|[k' v'] d IH]; simpl.
  - intros _. by rewrite decide_True.
  - destruct (decide (k' = k)) as [->|Hne]; [done|].
    intros Hk. simpl. rewrite decide_False by done. by rewrite IH.
Qed.

Lemma members_ext (a b : gmap string (gset string)) :
  no_empty_entry a → no_empty_entry b →
  (∀ k, members a k = members b k) → a = b.
Proof.
  intros Ha Hb Hm. apply map_eq. intros k. specialize (Hm k).
  unfold members in Hm.
  destruct (a !! k) as [sa|] eqn:Hak, (b !! k) as [sb|] eqn:Hbk; simpl in Hm.
  - by rewrite Hm.
  - by destruct (Ha k sa Hak).
  - by destruct (Hb k sb Hbk).
  - done.
Qed.

Lemma no_empty_index_discard_all (index : gmap string (gset string))
    (gs : gset string) (v : string) :
  no_empty_entry index → no_empty_entry (index_discard_all index gs v).
Proof.
  intros Hne. apply no_empty_fold; [|done].
  intros idx g. apply no_empty_index_discard.
Qed.

Lemma coherent_unregistered w cid :
  coherent w →
  PyDict.get (active_connections (manager w)) cid = None →
  (∀ k, cid ∉ members (user_connections (manager w)) k) ∧
  (∀ k, cid ∉ members (scan_connections (manager w)) k) ∧
  (∀ k, cid ∉ members (group_connections (manager w)) k).
Proof.
  intros [Hk Hg Hu Hs] Hnew.
  assert (Hnot : ∀ c, ¬ registered w cid c)
    by (intros c (r & Hr & _); congruence).
  repeat split; intros k Hin.
  - destruct (Hu cid k Hin) as (c & Hc & _). by eapply Hnot.
  - destruct (Hs cid k Hin) as (c & Hc & _). by eapply Hnot.
  - apply (Hg cid k) in Hin as (c & Hc & _). by eapply Hnot.
Qed.

Lemma session_kept_start w (ws : nat) cid (uid : option string)
    (ctype : option ConnectionType) (sid : option string) (gs : list string) :
  coherent w → no_empty_entries (manager w) →
  PyDict.get (active_connections (manager w)) cid = None →
  session_kept cid (length (heap w))
    (connect w ws cid uid ctype sid gs).1 (connect w ws cid uid ctype sid gs).1.
Proof.
  intros Hcoh Hne Hnew. split; try done.
  - by apply connect_coherent.
  - rewrite connect_manager. by apply no_empty_register.
  - rewrite connect_heap, lookup_app_r by done. rewrite Nat.sub_diag.
    eexists _, _. by repeat split.
Qed.


(** The registry after the [disconnect] that ends a session is the registry
    the session found. *)
Lemma session_restores w (ws : nat) cid (uid : option string)
    (ctype : option ConnectionType) (sid : option string) (gs : list string) w2 :
  coherent w → no_empty_entries (manager w) →
  PyDict.get (active_connections (manager w)) cid = None →
  session_kept cid (length (heap w)) (connect w ws cid uid ctype sid gs).1 w2 →
  manager (disconnect w2 cid) = manager w.
Proof.
  intros Hcoh (Hneu & Hnes & Hneg) Hnew [Hcoh2 Hne2 Ha Hu Hs Ho Hc].
  destruct (coherent_unregistered w cid Hcoh Hnew) as (Hnu & Hns & Hng).
  destruct Hc as (c1 & c2 & Hc1 & Hc2 & Huid & Hsid).
  rewrite connect_heap, lookup_app_r in Hc1 by done.
  rewrite Nat.sub_diag in Hc1. injection Hc1 as <-. simpl in Huid, Hsid.
  rewrite connect_manager in Ha, Hu, Hs, Ho. simpl in Ha, Hu, Hs, Ho.
  assert (Hr2 : PyDict.get (active_connections (manager w2)) cid
                = Some (length (heap w)))
    by (rewrite Ha; apply PyDictFacts.get_set_eq).
  rewrite (disconnect_manager w2 cid _ c2 Hr2 Hc2).
  assert (Hopt : ∀ (index : gmap string (gset string)) (key : option string),
            no_empty_entry index → (∀ k, cid ∉ members index k) →
            index_discard_opt (index_add_opt index key cid) key cid = index).
  { intros index key Hne Hnot. apply members_ext; [|done|].
    - by apply no_empty_index_discard_opt, no_empty_index_add_opt.
    - intros k. apply set_eq. intros x.
      rewrite elem_members_discard_opt, elem_members_add_opt.
      specialize (Hnot k). naive_solver. }
  unfold unregister. destruct (manager w) as [a u sc g] eqn:Hmw.
  simpl in *. f_equal.
  - rewrite Ha. by apply pop_set_absent.
  - rewrite Hu, Huid. by apply Hopt.
  - rewrite Hs, Hsid. by apply Hopt.
  - apply members_ext; [|done|].
    + apply no_empty_index_discard_all. by destruct Hne2 as (_ & _ & ?).
    + intros k. apply set_eq. intros x.
      rewrite elem_members_discard_all.
      destruct (decide (x = cid)) as [->|Hx].
      * split; [|by intros ?%Hng].
        intros [Hin Hnot]. exfalso. apply Hnot. split; [done|].
        apply (coherent_group w2 Hcoh2) in Hin as (c & (r' & Hr' & Hc') & _ & Hin).
        congruence.
      * rewrite (Ho x k Hx), elem_members_add_all. naive_solver.
Qed.


End Sessions.


Section SessionsMore.
Implicit Types (w : World) (cid : string).

Lemma session_kept_ext cid (r : nat) w1 w2 w' :
  heap w' = heap w2 → manager w' = manager w2 →
  session_kept cid r w1 w2 → session_kept cid r w1 w'.
Proof.
  intros Hh Hm [Hcoh Hne Ha Hu Hs Ho Hc]. split.
  - by apply (coherent_ext w2 w').
  - by rewrite Hm.
  - by rewrite Hm.
  - by rewrite Hm.
  - by rewrite Hm.
  - intros x g Hx. rewrite Hm. by apply Ho.
  - destruct Hc as (c1 & c2 & ?). exists c1, c2. by rewrite Hh.
Qed.

Lemma handle_client_turn_state (now : string) w (s : Session) (f : Frame) :
  heap (handle_client_turn now w s f) = heap w ∧
  manager (handle_client_turn now w s f) = manager w.
Proof.
  unfold handle_client_turn. destruct f; try done.
  by destruct (heap w !! session_client s).
Qed.

(** X10. A whole run of [handle_client] under an id that is not registered,
    in a coherent registry without empty entries, leaves the registry
    exactly as it found it, whatever frames the client sent. *)
Theorem handle_client_restores_registry w (ws : nat) cid (uid : option string)
    (ctype : option ConnectionType) (sid : option string) (gs : list string)
    (frames : list (string * Frame)) :
  coherent w → no_empty_entries (manager w) →
  PyDict.get (active_connections (manager w)) cid = None →
  manager (handle_client w ws cid uid ctype sid gs frames) = manager w.
Proof.
  intros Hcoh Hne Hnew. unfold handle_client.
  pose proof (connect_returns w ws cid uid ctype sid gs) as Hret.
  pose proof (session_kept_start w ws cid uid ctype sid gs Hcoh Hne Hnew) as Hstart.
  destruct (connect w ws cid uid ctype sid gs) as [w1 r] eqn:Hconn.
  simpl in Hret, Hstart. subst r.
  apply (session_restores w ws cid uid ctype sid gs); try done.
  rewrite Hconn. cbn [fst].
  assert (Hturns : ∀ w2, session_kept cid (length (heap w)) w1 w2 →
            session_kept cid (length (heap w)) w1
              (foldl (fun w' (tf : string * Frame) =>
                        handle_client_turn tf.1 w'
                          {| session_client_id := cid;
                             session_client := length (heap w) |} tf.2)
                     w2 frames)).
  { induction frames as [|[now f] frames IH]; intros w2 Hk; [done|].
    cbn [foldl]. apply IH.
    destruct (handle_client_turn_state now w2
                {| session_client_id := cid; session_client := length (heap w) |} f)
      as [Hh Hm].
    by apply (session_kept_ext cid _ w1 w2). }
  by apply Hturns.
Qed.

Lemma handle_client_restores_registry_witness :
  manager (handle_client (run (fresh_world quiet) orderly_day) 9 "z" (Some "u7")
             (Some DASHBOARD) (Some "scan-7") ["ops"; "public"]
             [("12:00", FramePing); ("12:01", FrameGarbled)])
  = manager (run (fresh_world quiet) orderly_day).
Proof.
  apply (handle_client_restores_registry (run (fresh_world quiet) orderly_day)
           9 "z").
  - apply orderly_day_coherent.
  - apply run_no_empty, fresh_no_empty.
  - vm_compute. reflexivity.
Defined.

(** X11. A run of [websocket_endpoint] whose token fails verification
    registers nothing and closes its own socket; but its [finally] still
    disconnects the id it was called with: when that id is registered (by
    another session), the client registered under it is unregistered and
    its socket is closed. *)
Theorem failed_authentication_evicts
    (verify_jwt_token : string → option string) (DEBUG : bool) w (ws : nat)
    (tok : string) cid (fresh_id : string) (ctype : option ConnectionType)
    (sid : option string) (frames : list (string * Frame))
    (c : WebSocketClient) :
  cid ≠ "" → tok ≠ "" →
  verify_jwt_token tok = None →
  registered w cid c →
  websocket_endpoint verify_jwt_token DEBUG w ws (Some tok) (Some cid) fresh_id
                     ctype sid frames =
    disconnect (with_net w (ws_close (net w) ws)) cid ∧
  PyDict.get (active_connections (manager
     (websocket_endpoint verify_jwt_token DEBUG w ws (Some tok) (Some cid) fresh_id
                         ctype sid frames))) cid = None ∧
  heap (websocket_endpoint verify_jwt_token DEBUG w ws (Some tok) (Some cid)
                           fresh_id ctype sid frames) = heap w ∧
  ws ∈ closed (net (websocket_endpoint verify_jwt_token DEBUG w ws (Some tok)
                      (Some cid) fresh_id ctype sid frames)) ∧
  websocket c ∈ closed (net (websocket_endpoint verify_jwt_token DEBUG w ws
                               (Some tok) (Some cid) fresh_id ctype sid frames)).
Proof.
  intros Hcid Htok Hver (r & Hr & Hc).
  assert (Htr : truthy (Some cid) = Some cid)
    by (simpl; by rewrite decide_False).
  assert (Htt : truthy (Some tok) = Some tok)
    by (simpl; by rewrite decide_False).
  assert (Heq : websocket_endpoint verify_jwt_token DEBUG w ws (Some tok) (Some cid)
                  fresh_id ctype sid frames =
                disconnect (with_net w (ws_close (net w) ws)) cid).
  { unfold websocket_endpoint, authenticate_connection.
    by rewrite !Htr, Htt, Hver. }
  rewrite Heq. split; [done|].
  set (w0 := with_net w (ws_close (net w) ws)).
  assert (Hr0 : PyDict.get (active_connections (manager w0)) cid = Some r) by done.
  assert (Hc0 : heap w0 !! r = Some c) by done.
  assert (Hcl : ∀ x, x ∈ closed (net w0) ∨ x = websocket c →
                     x ∈ closed (net (disconnect w0 cid))).
  { intros x Hx. unfold disconnect. rewrite Hr0, Hc0.
    assert (Hbc : ∀ w1 n0 (e1 e2 : gset string),
              closed (net (broadcast w1 n0 e1 e2).1) = closed (net w1)).
    { intros w1 n0 e1 e2. unfold broadcast.
      pose proof (broadcast_walk w1 n0 e1 e2 (net w1) ∅
                    (PyDict.keys (active_connections (manager w1)))) as Hwalk.
      destruct (foldl _ _ _) as [t res]. by destruct Hwalk as [_ Hcl _ _]. }
    destruct (truthy (user_id c)); rewrite ?Hbc; simpl;
      rewrite elem_of_app, list_elem_of_singleton; naive_solver. }
  split; [|split; [|split]].
  - rewrite (disconnect_manager w0 cid r c) by done. simpl.
    apply PyDictFacts.get_pop_eq.
  - by rewrite disconnect_heap.
  - apply Hcl. left. simpl. apply elem_of_app. right. by left.
  - apply Hcl. by right.
Qed.

Lemma failed_authentication_evicts_witness :
  PyDict.get (active_connections (manager
     (websocket_endpoint (fun _ => None) false abc_world 9 (Some "forged")
        (Some "C") "client_0badcafe" (Some USER) None []))) "C" = None ∧
  2 ∈ closed (net (websocket_endpoint (fun _ => None) false abc_world 9
                     (Some "forged") (Some "C") "client_0badcafe" (Some USER)
                     None [])).
Proof.
  destruct (failed_authentication_evicts (fun _ => None) false abc_world 9
              "forged" "C" "client_0badcafe" (Some USER) None []
              (public_client 2 "C")) as (_ & H1 & _ & _ & H2);
    [discriminate | discriminate | reflexivity | |].
  - exists 2. split; vm_compute; reflexivity.
  - split; [exact H1 | exact H2].
Defined.



End SessionsMore.

(** ** The notify route and the connection listing *)

Section Routes.
Implicit Types (w : World).

(** X13. [send_notification] ends in an error exactly when the message type
    is no value of [NotificationType] (the notification cannot be built),
    or the target type is none of the five it knows, or a target other than
    [broadcast] comes without a target id or with the empty one; in each of
    these cases nothing is sent and the state is unchanged. *)
Theorem notify_route_errors w (message_type : string)
    (message_data : list (string * Value)) (target_type : string)
    (target_id : option string) :
  ((send_notification_request w message_type message_data target_type target_id).2
     = None ↔
   NotificationType_of_value message_type = None ∨
   target_type ∉ target_types ∨
   (target_type ≠ "broadcast" ∧ truthy target_id = None)) ∧
  ((send_notification_request w message_type message_data target_type target_id).2
     = None →
   (send_notification_request w message_type message_data target_type target_id).1
     = w).
Proof.
  unfold send_notification_request, Notification_of, target_types.
  destruct (NotificationType_of_value message_type) as [t|]; [|split; [|done]].
  2: { split; [by left | done]. }
  unfold send_notification.
  destruct (decide (target_type = "broadcast")) as [->|Hb].
  { destruct (broadcast w _ ∅ ∅) as [w' m]. simpl. split; [|done].
    split; [done|]. intros [?|[Hn|[? _]]]; [done| |done].
    exfalso. apply Hn. by left. }
  destruct (truthy target_id) as [id|] eqn:Hid.
  2: { simpl. split; [|done]. split; [|done]. intros _. right; right. done. }
  destruct (decide (target_type = "user")) as [->|Hu].
  { destruct (send_to_user w id _) as [w' l]. simpl. split; [|done].
    split; [done|]. intros [?|[Hn|[_ ?]]]; [done| |done].
    exfalso. apply Hn. set_solver. }
  destruct (decide (target_type = "group")) as [->|Hg].
  { destruct (send_to_group w id _) as [w' l]. simpl. split; [|done].
    split; [done|]. intros [?|[Hn|[_ ?]]]; [done| |done].
    exfalso. apply Hn. set_solver. }
  destruct (decide (target_type = "client")) as [->|Hc].
  { destruct (send_to_client w id _) as [w' b]. simpl. split; [|done].
    split; [done|]. intros [?|[Hn|[_ ?]]]; [done| |done].
    exfalso. apply Hn. set_solver. }
  destruct (decide (target_type = "scan")) as [->|Hs].
  { destruct (send_to_scan w id _) as [w' l]. simpl. split; [|done].
    split; [done|]. intros [?|[Hn|[_ ?]]]; [done| |done].
    exfalso. apply Hn. set_solver. }
  simpl. split; [|done]. split; [|done]. intros _. right; left.
  rewrite !elem_of_cons, elem_of_nil. naive_solver.
Qed.

Lemma info_passes_connection_info (uid : option string)
    (ctype : option ConnectionType) (sid : option string) (cid : string)
    (c : WebSocketClient) :
  info_passes uid ctype sid (connection_info cid c) = passes_filters uid ctype sid c.
Proof. done. Qed.

Lemma passes_no_filter (c : WebSocketClient) : passes_filters None None None c = true.
Proof. done. Qed.

Lemma get_elem_of {V : Type} (d : list (string * V)) (k : string) (v : V) :
  NoDup (PyDict.keys d) → (k, v) ∈ d → PyDict.get d k = Some v.
Proof.
  unfold PyDict.keys. induction d as [|[k' v'] d IH]; intros Hnd Hin.
  - by apply elem_of_nil in Hin.
  - apply NoDup_cons in Hnd as [Hk' Hnd]. simpl.
    apply elem_of_cons in Hin as [[= <- <-]|Hin].
    + by rewrite decide_True.
    + rewrite decide_False; [by apply IH|].
      intros ->. apply Hk'. apply list_elem_of_fmap. by exists (k, v).
Qed.

(** The answer of [get_connections] for one entry of the primary map. *)
Lemma get_connections_cons (hp : list WebSocketClient) (uid : option string)
    (ctype : option ConnectionType) (sid : option string)
    (cid : string) (r : nat) (d : list (string * nat)) (c : WebSocketClient) :
  hp !! r = Some c →
  omap (fun (entry : string * nat) =>
          match hp !! entry.2 with
          | Some client =>
              if passes_filters uid ctype sid client
              then Some (connection_info entry.1 client) else None
          | None => None
          end) ((cid, r) :: d) =
  (if passes_filters uid ctype sid c then [connection_info cid c] else []) ++
  omap (fun (entry : string * nat) =>
          match hp !! entry.2 with
          | Some client =>
              if passes_filters uid ctype sid client
              then Some (connection_info entry.1 client) else None
          | None => None
          end) d.
Proof.
  intros Hc. cbn [omap list_omap snd fst]. rewrite Hc.
  by destruct (passes_filters uid ctype sid c).
Qed.

(** X14. [get_connections]: without filters the answer lists every entry of
    the primary map once, in the order of registration; with filters it is
    the unfiltered answer restricted to the entries that pass them, an empty
    string counting as no filter; [count] is the length of the list. *)
Theorem get_connections_filters w (uid : option string)
    (ctype : option ConnectionType) (sid : option string) :
  (NoDup (PyDict.keys (active_connections (manager w))) → refs_bound w →
   info_client_id <$> (get_connections w None None None).2 =
   PyDict.keys (active_connections (manager w))) ∧
  (get_connections w uid ctype sid).2 =
    filter (fun info => info_passes uid ctype sid info = true)
           (get_connections w None None None).2 ∧
  (get_connections w uid ctype sid).1 = length (get_connections w uid ctype sid).2 ∧
  get_connections w (Some "") ctype (Some "") = get_connections w None ctype None.
Proof.
  unfold get_connections. cbn [fst snd].
  split; [|split; [|split; [done|done]]].
  - intros Hnd Hb.
    assert (Hall : Forall (fun entry : string * nat => is_Some (heap w !! entry.2))
                          (active_connections (manager w))).
    { apply Forall_forall. intros [cid r] Hin.
      apply (Hb cid r). by apply get_elem_of. }
    clear Hnd Hb. unfold PyDict.keys.
    induction Hall as [|[cid r] d [c Hc] _ IH]; [done|].
    rewrite (get_connections_cons (heap w) None None None cid r d c Hc).
    rewrite passes_no_filter. cbn [app fmap list_fmap fst].
    f_equal. exact IH.
  - induction (active_connections (manager w)) as [|[cid r] d IH]; [done|].
    destruct (heap w !! r) as [c|] eqn:Hc.
    + rewrite (get_connections_cons (heap w) uid ctype sid cid r d c Hc).
      rewrite (get_connections_cons (heap w) None None None cid r d c Hc).
      rewrite passes_no_filter. cbn [app]. rewrite filter_cons.
      rewrite info_passes_connection_info.
      destruct (passes_filters uid ctype sid c) eqn:Hp.
      * rewrite decide_True by done. cbn [app]. by rewrite IH.
      * rewrite decide_False by done. cbn [app]. exact IH.
    + cbn [omap list_omap snd fst]. rewrite Hc. exact IH.
Qed.

End Routes.

(** ** The older registry: channels *)

Section LegacyFacts.
Import LegacyChannels.
Implicit Types (w : Legacy.World) (cid channel : string) (l : list string).

Lemma list_remove_absent cid l : cid ∉ l → Legacy.list_remove cid l = l.
Proof.
  induction l as [|y l IH]; [done|]. simpl. intros Hnot.
  rewrite decide_False by (intros ->; apply Hnot; by left).
  rewrite IH; [done|]. intros ?. apply Hnot. by right.
Qed.

Lemma elem_of_list_remove cid l x :
  x ∈ Legacy.list_remove cid l → x ∈ l.
Proof.
  induction l as [|y l IH]; [done|]. simpl.
  destruct (decide (y = cid)); [by right|].
  intros [->|?]%elem_of_cons; [by left | right; by apply IH].
Qed.

Lemma list_remove_NoDup cid l :
  NoDup l → NoDup (Legacy.list_remove cid l) ∧ cid ∉ Legacy.list_remove cid l.
Proof.
  induction l as [|y l IH]; intros Hnd; simpl.
  - split; [constructor | apply not_elem_of_nil].
  - apply NoDup_cons in Hnd as [Hy Hnd].
    destruct (decide (y = cid)) as [->|Hne]; [done|].
    destruct (IH Hnd) as [IH1 IH2]. split.
    + apply NoDup_cons. split; [|done]. intros ?. apply Hy.
      by eapply elem_of_list_remove.
    + intros [?|?]%elem_of_cons; [by subst | done].
Qed.

Lemma legacy_disconnect_channels w cid channel l :
  channels_NoDup w →
  Legacy.channels (Legacy.manager (Legacy.disconnect w cid)) !! channel = Some l →
  NoDup l ∧
  (is_Some (PyDict.get (Legacy.active_connections (Legacy.manager w)) cid) →
   cid ∉ l).
Proof.
  intros Hnd. unfold Legacy.disconnect.
  destruct (PyDict.get _ cid) as [ws|].
  - simpl. rewrite lookup_fmap.
    destruct (Legacy.channels (Legacy.manager w) !! channel) as [l0|] eqn:Hl0;
      [|done].
    simpl. intros [= <-]. specialize (Hnd channel l0 Hl0).
    destruct (decide (cid ∈ l0)) as [Hin|Hin].
    + destruct (list_remove_NoDup cid l0 Hnd). by split.
    + by split.
  - intros Hl. split; [by eapply Hnd | by intros [? ?]].
Qed.

Lemma legacy_send_message_NoDup w cid (message : Notification) :
  channels_NoDup w → channels_NoDup (Legacy.send_message w cid message).
Proof.
  intros Hnd. unfold Legacy.send_message.
  destruct (PyDict.get _ cid) as [ws|] eqn:Hws; [|done].
  destruct (ws_send_json (Legacy.net w) ws message) as [t|]; [done|].
  intros channel l Hl.
  by destruct (legacy_disconnect_channels w cid channel l Hnd Hl).
Qed.

Lemma legacy_broadcast_loop_NoDup (turns : nat) w channel
    (message : Notification) (i : nat) :
  channels_NoDup w → channels_NoDup (broadcast_loop turns w channel message i).
Proof.
  revert w i. induction turns as [|turns IH]; intros w i Hnd; [done|].
  simpl. destruct (default [] _ !! i) as [cid|]; [|done].
  apply IH. by apply legacy_send_message_NoDup.
Qed.

Lemma legacy_step_NoDup w (o : LegacyChannels.Op) :
  channels_NoDup w → channels_NoDup (LegacyChannels.step w o).
Proof.
  intros Hnd. destruct o as [ws cid|cid|cid channel|cid channel|channel message];
    simpl.
  - done.
  - intros channel l Hl.
    by destruct (legacy_disconnect_channels w cid channel l Hnd Hl).
  - intros ch l. unfold Legacy.subscribe. simpl.
    destruct (decide (channel = ch)) as [->|Hne].
    + rewrite lookup_insert_eq. intros [= <-].
      destruct (Legacy.channels (Legacy.manager w) !! ch) as [l0|] eqn:Hl0; simpl.
      * specialize (Hnd ch l0 Hl0).
        destruct (decide (cid ∈ l0)) as [Hin|Hin]; [done|].
        apply NoDup_app. split; [done|]. split; [|apply NoDup_singleton].
        by intros x Hx ->%list_elem_of_singleton.
      * apply NoDup_singleton.
    + rewrite lookup_insert_ne by done. apply Hnd.
  - unfold unsubscribe.
    destruct (Legacy.channels (Legacy.manager w) !! channel) as [l0|] eqn:Hl0;
      [|done].
    destruct (decide (cid ∈ l0)) as [Hin|Hin]; [|done].
    intros ch l. simpl. destruct (decide (channel = ch)) as [->|Hne].
    + rewrite lookup_insert_eq. intros [= <-].
      by destruct (list_remove_NoDup cid l0 (Hnd ch l0 Hl0)).
    + rewrite lookup_insert_ne by done. apply Hnd.
  - unfold broadcast.
    destruct (Legacy.channels (Legacy.manager w) !! channel) as [l0|]; [|done].
    by apply legacy_broadcast_loop_NoDup.
Qed.

(** X15. In the older registry no channel ever lists an id twice, after any
    sequence of its operations from an empty registry; and so [disconnect]
    of a connected client leaves it in no channel. *)
Theorem legacy_channels_duplicate_free (t : Transport)
    (ops : list LegacyChannels.Op) :
  channels_NoDup (foldl LegacyChannels.step (legacy_init t) ops) ∧
  (∀ cid ws channel l,
     PyDict.get (Legacy.active_connections
                   (Legacy.manager (foldl LegacyChannels.step (legacy_init t) ops)))
                cid = Some ws →
     Legacy.channels (Legacy.manager
       (Legacy.disconnect (foldl LegacyChannels.step (legacy_init t) ops) cid))
       !! channel = Some l →
     cid ∉ l).
Proof.
  assert (Hnd : channels_NoDup (foldl LegacyChannels.step (legacy_init t) ops)).
  { assert (H : ∀ w, channels_NoDup w →
                     channels_NoDup (foldl LegacyChannels.step w ops)).
    { induction ops as [|o ops IH]; intros w Hw; [done|].
      simpl. apply IH. by apply legacy_step_NoDup. }
    apply H. intros channel l. simpl. by rewrite lookup_empty. }
  split; [done|]. intros cid ws channel l Hws Hl.
  destruct (legacy_disconnect_channels _ cid channel l Hnd Hl) as [_ Hnot].
  apply Hnot. eauto.
Qed.

(** X16. Subscriptions in the older registry: a second [subscribe] changes
    nothing, and [unsubscribe] after the [subscribe] of an id that the
    channel did not list gives the state before back; when the channel did
    not exist, it stays behind with an empty list. *)
Theorem legacy_subscribe_unsubscribe w cid channel :
  Legacy.subscribe (Legacy.subscribe w cid channel) cid channel =
    Legacy.subscribe w cid channel ∧
  (∀ l, Legacy.channels (Legacy.manager w) !! channel = Some l → cid ∉ l →
        unsubscribe (Legacy.subscribe w cid channel) cid channel = w) ∧
  (Legacy.channels (Legacy.manager w) !! channel = None →
   Legacy.channels
     (Legacy.manager (unsubscribe (Legacy.subscribe w cid channel) cid channel))
     !! channel = Some []).
Proof.
  destruct w as [[a chs] t]. unfold Legacy.subscribe, unsubscribe. simpl.
  split; [|split].
  - rewrite lookup_insert_eq. simpl.
    destruct (decide (cid ∈ default [] (chs !! channel))) as [Hin|Hin].
    + rewrite decide_True by done. by rewrite insert_insert_eq.
    + rewrite decide_True by (apply elem_of_app; right; by left).
      by rewrite insert_insert_eq.
  - intros l Hl Hnot. rewrite lookup_insert_eq, Hl. simpl.
    rewrite (decide_False (P := cid ∈ l)) by done.
    rewrite decide_True by (apply elem_of_app; right; by left).
    simpl. rewrite insert_insert_eq.
    assert (Hrm : Legacy.list_remove cid (l ++ [cid]) = l).
    { clear Hl. induction l as [|y l IH]; simpl.
      - by rewrite decide_True.
      - rewrite decide_False by (intros ->; apply Hnot; by left).
        rewrite IH; [done|]. intros ?. apply Hnot. by right. }
    rewrite Hrm. by rewrite insert_id.
  - intros Hnone. rewrite lookup_insert_eq, Hnone. simpl.
    rewrite decide_True by (by left). simpl.
    rewrite lookup_insert_eq. by rewrite decide_True.
Qed.

End LegacyFacts.

(** ** The older registry: broadcast *)

Section LegacyBroadcast.
Import LegacyChannels.
Implicit Types (w : Legacy.World) (cid channel : string) (l : list string)
  (message : Notification).

Lemma frames_to_ext w w' l message :
  (∀ cid, cid ∈ l →
     PyDict.get (Legacy.active_connections (Legacy.manager w')) cid =
     PyDict.get (Legacy.active_connections (Legacy.manager w)) cid) →
  frames_to w' l message = frames_to w l message.
Proof.
  unfold frames_to. induction l as [|cid l IH]; intros Hsame; [done|].
  cbn [omap list_omap]. rewrite (Hsame cid) by (by left).
  rewrite IH; [done|]. intros c Hc. apply Hsame. by right.
Qed.

Lemma broadcast_loop_S (turns : nat) w channel message (i : nat) :
  broadcast_loop (S turns) w channel message i =
  match default [] (Legacy.channels (Legacy.manager w) !! channel) !! i with
  | None => w
  | Some cid =>
      broadcast_loop turns (Legacy.send_message w cid message) channel message (S i)
  end.
Proof. done. Qed.

(** The loop from position [i] on, when no write to a client still to come
    fails: the registry is not touched and each connected client from [i]
    on gets the message, in the order of the list. The turns given are
    enough to reach the end of the list. *)
Lemma legacy_loop_delivers (turns : nat) w channel l message (i : nat) :
  Legacy.channels (Legacy.manager w) !! channel = Some l →
  (∀ cid ws, cid ∈ drop i l →
     PyDict.get (Legacy.active_connections (Legacy.manager w)) cid = Some ws →
     ws ∉ broken (Legacy.net w)) →
  (length l ≤ turns + i)%nat →
  broadcast_loop turns w channel message i =
  {| Legacy.manager := Legacy.manager w;
     Legacy.net :=
       {| broken := broken (Legacy.net w);
          outbox := outbox (Legacy.net w) ++ frames_to w (drop i l) message;
          closed := closed (Legacy.net w) |} |}.
Proof.
  revert w i. induction turns as [|turns IH]; intros w i Hl Hok Hlen.
  - rewrite drop_ge by lia. destruct w as [mg [b o c]]. simpl.
    by rewrite app_nil_r.
  - cbn [broadcast_loop]. rewrite Hl. cbn [default from_option id].
    destruct (l !! i) as [cid|] eqn:Hi.
    + assert (Hdrop : drop i l = cid :: drop (S i) l) by by apply drop_S.
      assert (Hin : cid ∈ drop i l) by (rewrite Hdrop; by left).
      unfold Legacy.send_message.
      destruct (PyDict.get (Legacy.active_connections (Legacy.manager w)) cid)
        as [ws|] eqn:Hws.
      * unfold ws_send_json. rewrite decide_False by by eapply Hok.
        rewrite IH; cbn [Legacy.manager Legacy.net broken outbox closed];
          [|done| |lia].
        -- f_equal. f_equal. rewrite Hdrop. unfold frames_to at 2.
           cbn [omap list_omap]. rewrite Hws. rewrite <- app_assoc. done.
        -- intros c' ws' Hc' Hws'. apply (Hok c' ws'); [|done].
           rewrite Hdrop. by right.
      * rewrite IH; [|done| |lia].
        -- f_equal. f_equal. rewrite Hdrop. unfold frames_to at 2.
           cbn [omap list_omap]. by rewrite Hws.
        -- intros c' ws' Hc' Hws'. apply (Hok c' ws'); [|done].
           rewrite Hdrop. by right.
    + apply lookup_ge_None in Hi. rewrite drop_ge by done.
      destruct w as [mg [b o c]]. simpl. by rewrite app_nil_r.
Qed.

(** X17. [broadcast] of the older registry when no write fails: the loop
    runs to the end of the channel list, the registry is not touched, and
    the message is written once to each connected subscriber, in the order
    of the list; subscribers that are not connected are passed over, and a
    channel that does not exist gives no write at all. *)
Theorem legacy_broadcast_delivers w channel message :
  (∀ l, Legacy.channels (Legacy.manager w) !! channel = Some l →
     (∀ cid ws, cid ∈ l →
        PyDict.get (Legacy.active_connections (Legacy.manager w)) cid = Some ws →
        ws ∉ broken (Legacy.net w)) →
     broadcast w channel message =
     {| Legacy.manager := Legacy.manager w;
        Legacy.net :=
          {| broken := broken (Legacy.net w);
             outbox := outbox (Legacy.net w) ++ frames_to w l message;
             closed := closed (Legacy.net w) |} |}) ∧
  (Legacy.channels (Legacy.manager w) !! channel = None →
   broadcast w channel message = w).
Proof.
  split.
  - intros l Hl Hok. unfold broadcast. rewrite Hl.
    rewrite (legacy_loop_delivers (length l) w channel l message 0);
      [done | done | | lia].
    intros cid ws Hin. by apply Hok.
  - intros Hnone. unfold broadcast. by rewrite Hnone.
Qed.

(** X18. [broadcast] of the older registry when the write to the first
    subscriber fails: that client is disconnected, which removes it from the
    list the loop is walking, and the subscriber that followed it is passed
    over without a send; the loop goes on with the ones after. It happens
    for [notify_threat_detection] on the channel [threats] in the same
    way. *)
Theorem legacy_broadcast_skips_after_failure w channel (x y : string) l
    (wsx : nat) message :
  Legacy.channels (Legacy.manager w) !! channel = Some (x :: y :: l) →
  NoDup (x :: y :: l) →
  PyDict.get (Legacy.active_connections (Legacy.manager w)) x = Some wsx →
  wsx ∈ broken (Legacy.net w) →
  (∀ cid ws, cid ∈ l →
     PyDict.get (Legacy.active_connections (Legacy.manager w)) cid = Some ws →
     ws ∉ broken (Legacy.net w)) →
  broadcast w channel message =
    {| Legacy.manager := Legacy.manager (Legacy.disconnect w x);
       Legacy.net :=
         {| broken := broken (Legacy.net w);
            outbox := outbox (Legacy.net w) ++ frames_to w l message;
            closed := closed (Legacy.net w) |} |} ∧
  Legacy.channels (Legacy.manager (broadcast w channel message)) !! channel =
    Some (y :: l) ∧
  (channel = "threats" →
   ∀ threat_data,
     outbox (Legacy.net (notify_threat_detection w threat_data)) =
     outbox (Legacy.net w) ++
     frames_to w l {| type := THREAT_DETECTED; data := threat_data |}).
Proof.
  intros Hl Hnd Hx Hbroken Hok.
  apply NoDup_cons in Hnd as [Hxl Hnd].
  assert (Hdisc : Legacy.channels (Legacy.manager (Legacy.disconnect w x)) !! channel
                  = Some (y :: l)).
  { unfold Legacy.disconnect. rewrite Hx. simpl. rewrite lookup_fmap, Hl. simpl.
    rewrite decide_True by (by left). simpl. by rewrite decide_True. }
  assert (Hactive : ∀ cid, cid ∈ l →
            PyDict.get (Legacy.active_connections
                          (Legacy.manager (Legacy.disconnect w x))) cid =
            PyDict.get (Legacy.active_connections (Legacy.manager w)) cid).
  { intros cid Hin. unfold Legacy.disconnect. rewrite Hx. simpl.
    apply PyDictFacts.get_pop_ne. intros ->. apply Hxl. by right. }
  assert (Hnet : Legacy.net (Legacy.disconnect w x) = Legacy.net w)
    by (unfold Legacy.disconnect; by rewrite Hx).
  assert (Hall : ∀ m0, broadcast w channel m0 =
    {| Legacy.manager := Legacy.manager (Legacy.disconnect w x);
       Legacy.net :=
         {| broken := broken (Legacy.net w);
            outbox := outbox (Legacy.net w) ++ frames_to w l m0;
            closed := closed (Legacy.net w) |} |}).
  { intros m0. unfold broadcast. rewrite Hl. cbn [length].
    rewrite broadcast_loop_S, Hl. cbn [default from_option id lookup list_lookup].
    assert (Hsend : Legacy.send_message w x m0 = Legacy.disconnect w x).
    { unfold Legacy.send_message, ws_send_json. rewrite Hx.
      by rewrite decide_True. }
    rewrite Hsend.
    rewrite (legacy_loop_delivers (S (length l)) (Legacy.disconnect w x)
               channel (y :: l) m0 1 Hdisc).
    - rewrite Hnet. cbn [drop]. rewrite drop_0.
      by rewrite (frames_to_ext w (Legacy.disconnect w x) l m0 Hactive).
    - cbn [drop]. rewrite drop_0. intros cid ws Hin Hws.
      rewrite Hnet. apply (Hok cid ws Hin). by rewrite <- Hactive.
    - simpl. lia. }
  split; [apply Hall|]. split.
  - rewrite Hall. exact Hdisc.
  - intros -> threat_data. unfold notify_threat_detection. by rewrite Hall.
Qed.

Lemma legacy_broadcast_skips_after_failure_witness :
  broadcast legacy_sample "threats" alert =
    {| Legacy.manager := Legacy.manager (Legacy.disconnect legacy_sample "x");
       Legacy.net :=
         {| broken := broken (Legacy.net legacy_sample);
            outbox := outbox (Legacy.net legacy_sample) ++
                      frames_to legacy_sample [] alert;
            closed := closed (Legacy.net legacy_sample) |} |} ∧
  Legacy.channels (Legacy.manager (broadcast legacy_sample "threats" alert))
    !! "threats" = Some ["y"].
Proof.
  destruct (legacy_broadcast_skips_after_failure legacy_sample "threats" "x" "y" []
              1 alert) as (H1 & H2 & _).
  - vm_compute. reflexivity.
  - repeat constructor; set_solver.
  - vm_compute. reflexivity.
  - vm_compute. reflexivity.
  - intros cid ws Hin. by apply elem_of_nil in Hin.
  - split; [exact H1 | exact H2].
Defined.

End LegacyBroadcast.

(** ** The route guards *)

Section Guards.
Import Jwt.
Implicit Types (verify : string → Raised + TokenPayload) (token : string)
  (roles : list string).


(** X20. [get_current_admin_user] on [get_current_user] returns the payload
    exactly when a token is present, is verified, and carries the role
    [admin]; a verified token with another role gives 403, where
    [requires_admin] gives 500 for the same token; a missing, expired or
    invalid token gives 401. *)
Theorem admin_guards_disagree verify (token : option string) :
  (∀ p, get_current_admin_user verify token = inr p ↔
        ∃ tok, token = Some tok ∧ verify tok = inr p ∧ role p = "admin") ∧
  (∀ tok p, token = Some tok → verify tok = inr p → role p ≠ "admin" →
            get_current_admin_user verify token = inl (HTTPException 403) ∧
            requires_admin verify tok = inl (HTTPException 500)) ∧
  (token = None ∨
   (∃ tok, token = Some tok ∧
           (verify tok = inl ExpiredSignatureError ∨
            verify tok = inl InvalidTokenError)) →
   get_current_admin_user verify token = inl (HTTPException 401)).
Proof.
  unfold get_current_admin_user, get_current_user.
  split; [|split].
  - intros p. destruct token as [tok|].
    + destruct (verify tok) as [e|p'] eqn:Hv.
      * split; [by destruct e|]. intros (tok' & [= <-] & Hv' & _). congruence.
      * destruct (decide (role p' = "admin")) as [Hr|Hr].
        -- split; [intros [= <-]; eauto|].
           intros (tok' & [= <-] & Hv' & _). congruence.
        -- split; [done|]. intros (tok' & [= <-] & Hv' & Hr').
           rewrite Hv in Hv'. injection Hv' as <-. done.
    + split; [done | by intros (tok & ? & _)].
  - intros tok p -> Hv Hr. rewrite Hv. rewrite decide_False by done.
    split; [done|].
    unfold requires_admin, JWTBearer_call, JWTBearer_try. rewrite Hv.
    rewrite bool_decide_eq_true_2 by done.
    rewrite bool_decide_eq_true_2; [done|].
    rewrite list_elem_of_singleton. done.
  - intros [->|(tok & -> & [Hv|Hv])]; [done| |]; by rewrite Hv.
Qed.

End Guards.
